(** * Automated data acquisitor

    A shallow embedding of the acquisition pipeline of
    [automated_data_acquisitor]: the crop engine and the dissimilarity
    detector of [helper_functions.py], the worker of [card_thread.py], the
    coordinator of [automated_data_acquisitor.py] and the configuration
    loader [parse_args].

    Numbers.  Python [int]s and numpy indices are [Z].  Python [float]s
    (durations, rates, voltages) are modelled by the rationals they denote,
    with exact arithmetic ([Q]); [int(x)] of a float is truncation toward
    zero.  The inputs of the examples are dyadic rationals on which the
    binary64 operations of the source are exact.

    The detector is given twice.  [Detector] computes the scores over
    the real numbers with NaN, and carries the statements that hold for
    whatever the scores are: the length of the result, the values a flag
    can take, the excluded channels, the role of the threshold.
    [Detector64] follows the libraries in binary64, operation by
    operation, and decides what the scores are where rounding matters. *)

From Stdlib Require Import ZArith QArith Qround Reals Qreals String List Bool
  Sorted Permutation Lia Lra.
From Stdlib Require PrimFloat Uint63.
Import ListNotations.
Open Scope Z_scope.

(** ** Python values shared by all components *)

Module Py.

(** The exceptions the modelled code raises. *)
Inductive exn : Type :=
| ValueError (msg : string)
| RuntimeError (msg : string)
| SpcmException (msg : string)
| IndexError
| TypeError
| KeyError
| AttributeError
| SystemExit
| SerdeError
| DriverError (code : Z).

Inductive result (A : Type) : Type :=
| Ok (a : A)
| Raise (e : exn).
Arguments Ok {A} a.
Arguments Raise {A} e.

Definition is_ok {A} (r : result A) : bool :=
  match r with Ok _ => true | Raise _ => false end.

(** [int(x)] for a float [x]: truncation toward zero. *)
Definition int (x : Q) : Z := Z.quot (Qnum x) (Zpos (Qden x)).

(** [round(x)] for a float [x]: nearest integer, ties to even. *)
Definition round (x : Q) : Z :=
  let f := Qfloor x in
  let r := (x - inject_Z f)%Q in
  match Qcompare r (1 # 2) with
  | Lt => f
  | Gt => f + 1
  | Eq => if Z.even f then f else f + 1
  end.

(** Index normalisation of a sequence of length [n]: [i] and [i - n]
    denote the same position, anything else is out of range. *)
Definition index (n : nat) (i : Z) : option nat :=
  if (0 <=? i) && (i <? Z.of_nat n) then Some (Z.to_nat i)
  else if (- Z.of_nat n <=? i) && (i <? 0) then Some (Z.to_nat (i + Z.of_nat n))
  else None.

(** Bound normalisation of a slice [a[start:stop]] over length [n]. *)
Definition slice_bound (n : nat) (i : Z) : nat :=
  if i <? 0 then Z.to_nat (Z.max 0 (i + Z.of_nat n))
  else Z.to_nat (Z.min i (Z.of_nat n)).

Definition slice {A} (start stop : Z) (l : list A) : list A :=
  let s := slice_bound (length l) start in
  let e := slice_bound (length l) stop in
  firstn (e - s)%nat (skipn s l).

End Py.
Import Py.

(** ** Data classes ([data_classes/]) *)

Inductive FileFormat : Type := CSV | PQT.

Inductive InputImpedance : Type := LOW_IMPEDANCE | HIGH_IMPEDANCE.

Inductive SensorType : Type := AIRBORNE | STRUCTURE | SIGNAL_CHANNEL.

Inductive SensorCoupling : Type := AC | DC.

Record SensorParams : Type := mkSensorParams {
  sensor_type : SensorType;
  sensor_placement : string;
  sensor_card : Z;
  sensor_channel : Z;
  sensor_input_impedance : InputImpedance;
  sensor_amp_level : Q;
  sensor_coupling : SensorCoupling
}.

(** [SensorParams(sensor_card=c, sensor_channel=ch)]: the other fields take
    the defaults of the class. *)
Definition SensorParams_at (c ch : Z) : SensorParams :=
  mkSensorParams AIRBORNE "top" c ch HIGH_IMPEDANCE (10 # 1) DC.

Record AcqParams : Type := mkAcqParams {
  card_identifiers : list string;
  sync_identifier : string;
  sensors_card_0 : list SensorParams;
  sensors_card_1 : list SensorParams;
  card_timeout : Q;
  trigger_level : Q;
  trigger_channel_no : Z;
  emission_on_channel_no : Z;
  target_file_name : string;
  sample_rate : Q;
  data_format : FileFormat;
  acquisition_duration : Q;
  post_acquisition_duration : Q;
  pre_acquisition_duration : Q;
  sensitivity_threshold : Q;
  cur_version : Z;
  with_crop : bool;
  with_plot : bool;
  with_channel_check : bool
}.

(** ** Two-dimensional arrays

    A waveform matrix as the coordinator builds it
    ([np.array(list_of_data).T]): axis 0 is the sample axis, axis 1 the
    channel axis, so a row holds one sample of every channel. *)

Record ndarray : Type := mkArray {
  ncols : nat;
  rows : list (list Q)
}.

Definition shape0 (a : ndarray) : nat := length (rows a).
Definition shape1 (a : ndarray) : nat := ncols a.

(** [a[:, k]] *)
Definition column (a : ndarray) (k : Z) : option (list Q) :=
  match index (shape1 a) k with
  | Some j => Some (map (fun r => nth j r 0%Q) (rows a))
  | None => None
  end.

(** [a[start:stop, :]] *)
Definition slice_rows (start stop : Z) (a : ndarray) : ndarray :=
  mkArray (ncols a) (slice start stop (rows a)).

(** [a.T] as the list of its rows, one per channel. *)
Definition channels_of (a : ndarray) : list (list Q) :=
  map (fun j => map (fun r => nth j r 0%Q) (rows a)) (seq 0 (ncols a)).

(** ** Crop engine ([helper_functions.crop_data]) *)

(** [(channel_data > level).astype(int)] *)
Definition above (level x : Q) : Z :=
  if Qle_bool x level then 0 else 1.

(** [np.diff] on a vector. *)
Fixpoint diff (l : list Z) : list Z :=
  match l with
  | a :: (b :: _) as t => (b - a) :: diff t
  | _ => []
  end.

(** [np.where(v != 0)[0]], counting positions from [i]. *)
Fixpoint where_nonzero (i : Z) (v : list Z) : list Z :=
  match v with
  | [] => []
  | x :: t => if x =? 0 then where_nonzero (i + 1) t
              else i :: where_nonzero (i + 1) t
  end.

Definition crossings_of (channel_data : list Q) (level : Q) : list Z :=
  where_nonzero 0 (diff (map (above level) channel_data)).

Definition pre_trigger_samples (p : AcqParams) : Z :=
  int (pre_acquisition_duration p * sample_rate p)%Q.

Definition post_trigger_samples (p : AcqParams) : Z :=
  int (post_acquisition_duration p * sample_rate p)%Q.

Definition no_crossings_msg : string :=
  "No trigger crossings found in the data. Please check the trigger level.".

(** Lines 240-247: the two indices of the slice. *)
Definition crop_window (data : ndarray) (p : AcqParams)
    (first_cross last_cross : Z) : Z * Z :=
  let start_index :=
    if pre_trigger_samples p <? first_cross
    then first_cross - pre_trigger_samples p else 0 in
  let end_index :=
    if last_cross + post_trigger_samples p <? Z.of_nat (shape1 data)
    then last_cross + post_trigger_samples p
    else Z.of_nat (shape1 data) in
  (start_index, end_index).

Definition crop_data (data : ndarray) (p : AcqParams) : result ndarray :=
  if negb (with_crop p) then Ok data
  else
    match column data (trigger_channel_no p) with
    | None => Raise IndexError
    | Some channel_data =>
        match crossings_of channel_data (trigger_level p) with
        | [] => Raise (ValueError no_crossings_msg)
        | first_cross :: _ as crossings =>
            let last_cross := last crossings first_cross in
            let '(start_index, end_index) :=
              crop_window data p first_cross last_cross in
            Ok (slice_rows start_index end_index data)
        end
    end.

(** ** Dissimilarity detector ([helper_functions.detect_dissimilar_channels])

    The scores in exact arithmetic: the floats are the real numbers they
    denote, together with NaN.  The only divisions by zero that arise are
    [0 / 0]: a standard deviation or a norm is zero only when its
    numerator is zero too.  What the scores are in the floats of the code
    is the matter of [Detector64] below. *)

Module Detector.

Local Open Scope R_scope.

(** A float: a real number, or NaN ([None]). *)
Definition float : Type := option R.

Definition nan : float := None.

Definition lift2 (op : R -> R -> R) (a b : float) : float :=
  match a, b with
  | Some x, Some y => Some (op x y)
  | _, _ => nan
  end.

Definition fadd : float -> float -> float := lift2 Rplus.
Definition fsub : float -> float -> float := lift2 Rminus.
Definition fmul : float -> float -> float := lift2 Rmult.

Definition fdiv (a b : float) : float :=
  match a, b with
  | Some x, Some y => if Req_dec_T y 0 then nan else Some (x / y)
  | _, _ => nan
  end.

Definition fsqrt (a : float) : float := option_map sqrt a.

Definition fabs (a : float) : float := option_map Rabs a.

(** [a > b]: false as soon as one side is NaN. *)
Definition fgt (a b : float) : bool :=
  match a, b with
  | Some x, Some y => if Rlt_dec y x then true else false
  | _, _ => false
  end.

Definition of_Q (q : Q) : float := Some (Q2R q).

Fixpoint fsum (l : list float) : float :=
  match l with
  | [] => Some 0
  | x :: l' => fadd x (fsum l')
  end.

(** [np.mean] of a vector. *)
Definition mean (l : list float) : float :=
  fdiv (fsum l) (Some (INR (length l))).

(** [np.std] of a vector ([ddof = 0]). *)
Definition std (l : list float) : float :=
  let m := mean l in
  fsqrt (mean (map (fun x => fmul (fsub x m) (fsub x m)) l)).

(** [scipy.stats.zscore] of a vector, computed exactly: a constant
    vector gives NaN. *)
Definition zscore (l : list float) : list float :=
  let m := mean l in
  let s := std l in
  map (fun x => fdiv (fsub x m) s) l.

Definition dot (u v : list float) : float :=
  fsum (map (fun xy => fmul (fst xy) (snd xy)) (combine u v)).

Definition norm (u : list float) : float := fsqrt (dot u u).

(** The cosine metric of [pdist]: the cosine is clipped to [-1, 1] before
    it is subtracted from one. *)
Definition cosine (u v : list float) : float :=
  let c := fdiv (dot u v) (fmul (norm u) (norm v)) in
  let c' :=
    if fgt (fabs c) (Some 1)
    then match c with
         | Some x => if Rlt_dec x 0 then Some (-1) else Some 1
         | None => c
         end
    else c in
  fsub (Some 1) c'.

(** [squareform(pdist(X, metric="cosine"))]: the distance of every pair
    [i < j] mirrored around a zero diagonal; [squareform] turns the empty
    distance vector of fewer than two observations into one zero. *)
Definition dists (X : list (list float)) : list (list float) :=
  let n := length X in
  match n with
  | O => [[Some 0]]
  | _ =>
    map (fun i =>
           map (fun j =>
                  if Nat.eqb i j then Some 0
                  else cosine (nth (Nat.min i j) X []) (nth (Nat.max i j) X []))
               (seq 0 n))
        (seq 0 n)
  end.

(** Lines 67-73: [1] for a channel whose score exceeds the threshold. *)
Definition outlier_scores (data : ndarray) (threshold : Q) : list Z :=
  let data_norm := map (fun ch => zscore (map of_Q ch)) (channels_of data) in
  let avg_dists := map mean (dists data_norm) in
  let zscores := zscore avg_dists in
  map (fun z => if fgt (fabs z) (of_Q threshold) then 1%Z else 0%Z) zscores.

(** [v[k] = x] *)
Definition set_item (v : list Z) (k : Z) (x : Z) : result (list Z) :=
  match index (length v) k with
  | Some j => Ok (firstn j v ++ x :: skipn (S j) v)
  | None => Raise IndexError
  end.

Definition detect_dissimilar_channels (data : ndarray) (p : AcqParams)
    : result (list Z) :=
  let outliers := outlier_scores data (sensitivity_threshold p) in
  match set_item outliers (trigger_channel_no p) (-1) with
  | Raise e => Raise e
  | Ok outliers1 => set_item outliers1 (emission_on_channel_no p) (-1)
  end.

End Detector.

(** ** The detector in binary64

    The floats of Python and numpy are IEEE 754 binary64 numbers, and the
    scores of the detector are quotients of rounding errors as soon as
    the channels are close to each other.  This module follows the
    arithmetic of the libraries step by step on primitive binary64
    floats: the summation order of [np.add.reduce] (pairwise, eight
    accumulators), [np.mean] as a sum divided by the length,
    [scipy.stats.zscore] with its rule for constant input
    ([std <= |eps * mean|] gives NaN) and the cosine metric of
    [scipy.spatial.distance.pdist] (sequential dot products and norms,
    the cosine clipped to [-1, 1]).  An operation of the C loops is one
    rounded binary64 operation (no fused multiply-add). *)

Module Detector64.

Import PrimFloat.
Local Open Scope float_scope.

(** The float of an integer; exact below [2^53]. *)
Definition of_Z (z : Z) : float :=
  if (z <? 0)%Z then - of_uint63 (Uint63.of_Z (- z))
  else of_uint63 (Uint63.of_Z z).

(** The float a rational denotes: the correctly rounded quotient of two
    floats, which is the float nearest to [q] when the numerator and the
    denominator are below [2^53]. *)
Definition of_Q (q : Q) : float := of_Z (Qnum q) / of_Z (Z.pos (Qden q)).

(** [np.finfo(np.float64).eps] *)
Definition eps : float := 0x1p-52.

Definition fsum_from (acc : float) (a : list float) : float :=
  fold_left add a acc.

(** The unrolled loop of the pairwise sum: each of the eight accumulators
    takes one element of every further block of eight. *)
Fixpoint add_blocks (blocks : nat) (r a : list float)
    : list float * list float :=
  match blocks with
  | O => (r, a)
  | S blocks' =>
      add_blocks blocks'
        (map (fun xy => fst xy + snd xy) (combine r (firstn 8 a)))
        (skipn 8 a)
  end.

(** The sum of a block of 8 to 128 elements. *)
Definition block_sum (a : list float) : float :=
  let '(r, rest) :=
    add_blocks (length a / 8 - 1) (firstn 8 a) (skipn 8 a) in
  let r_ k := nth k r 0 in
  fsum_from (((r_ 0%nat + r_ 1%nat) + (r_ 2%nat + r_ 3%nat))
             + ((r_ 4%nat + r_ 5%nat) + (r_ 6%nat + r_ 7%nat)))
            rest.

(** [pairwise_sum] of numpy: fewer than 8 elements are added one by one,
    up to 128 go through the unrolled loop, more are split in two halves,
    the first a multiple of 8.  [depth] bounds the splits; the length of
    the list is always enough. *)
Fixpoint pairwise_sum (depth : nat) (a : list float) : float :=
  let n := length a in
  if (n <? 8)%nat then fsum_from 0 a
  else if (n <=? 128)%nat then block_sum a
  else
    match depth with
    | O => block_sum a
    | S depth' =>
        let n2 := (n / 2 - (n / 2) mod 8)%nat in
        pairwise_sum depth' (firstn n2 a) + pairwise_sum depth' (skipn n2 a)
    end.

(** [np.add.reduce] of a contiguous vector: the identity plus the
    pairwise sum. *)
Definition np_sum (a : list float) : float :=
  0 + pairwise_sum (length a) a.

(** [np.mean] of a vector. *)
Definition mean (a : list float) : float :=
  np_sum a / of_Z (Z.of_nat (length a)).

(** [scipy.stats.zscore] of a vector ([ddof = 0]): the deviations from
    the mean over the root of their mean square, and NaN throughout when
    that root is at most [|eps * mean|]. *)
Definition zscore (a : list float) : list float :=
  let mn := mean a in
  let dev := map (fun x => x - mn) a in
  let std := sqrt (mean (map (fun d => d * d) dev)) in
  if std <=? abs (eps * mn) then map (fun _ => nan) a
  else map (fun d => d / std) dev.

(** [dot_product] of [pdist]. *)
Definition dot (u v : list float) : float :=
  fsum_from 0 (map (fun xy => fst xy * snd xy) (combine u v)).

(** [_row_norms] of [pdist]. *)
Definition norm (u : list float) : float :=
  sqrt (fsum_from 0 (map (fun x => x * x) u)).

(** The cosine metric of [pdist]. *)
Definition cosine (u v : list float) : float :=
  let c := dot u v / (norm u * norm v) in
  let c' := if 1 <? abs c then (if c <? 0 then - (1) else 1) else c in
  1 - c'.

(** [squareform(pdist(X, metric="cosine"))], as in [Detector.dists]. *)
Definition dists (X : list (list float)) : list (list float) :=
  let n := length X in
  match n with
  | O => [[0]]
  | _ =>
    map (fun i =>
           map (fun j =>
                  if Nat.eqb i j then 0
                  else cosine (nth (Nat.min i j) X []) (nth (Nat.max i j) X []))
               (seq 0 n))
        (seq 0 n)
  end.

(** Lines 67-73. *)
Definition outlier_scores (data : ndarray) (threshold : Q) : list Z :=
  let data_norm := map (fun ch => zscore (map of_Q ch)) (channels_of data) in
  let avg_dists := map mean (dists data_norm) in
  let zscores := zscore avg_dists in
  map (fun z => if of_Q threshold <? abs z then 1%Z else 0%Z) zscores.

(** Lines 67-76. *)
Definition detect_dissimilar_channels (data : ndarray) (p : AcqParams)
    : result (list Z) :=
  let outliers := outlier_scores data (sensitivity_threshold p) in
  match Detector.set_item outliers (trigger_channel_no p) (-1) with
  | Raise e => Raise e
  | Ok outliers1 =>
      Detector.set_item outliers1 (emission_on_channel_no p) (-1)
  end.

End Detector64.

(** ** Acquisition worker ([card_thread.CardThread]) *)

(** What the blocking wait of one card ends in: its buffer (channels by
    samples, raw counts) or the fault the driver raises. *)
Inductive device_outcome : Type :=
| DataReady (buffer : list (list Z))
| DeviceFault (e : exn).

(** How [run] leaves its thread: by returning, or with an exception that
    escapes [run]. *)
Inductive thread_exit : Type :=
| Returned
| Escaped (e : exn).

Record CardThread : Type := mkCardThread {
  card_index : nat;
  card_obj : device_outcome;
  has_ex_queue : bool
}.

(** [CardThread.run] on the shared exception queue [q]. *)
Definition CardThread_run (t : CardThread) (q : list exn)
    : list exn * thread_exit :=
  match card_obj t with
  | DataReady _ => (q, Returned)
  | DeviceFault e =>
      if has_ex_queue t then (q ++ [e], Returned) else (q, Escaped e)
  end.

(** ** Acquisition coordinator ([automated_data_acquisitor.run_acquisition]) *)

Module Coordinator.

(** [MAX_SAMPLE_NUMBER.to_base_units().magnitude], for
    [MAX_SAMPLE_NUMBER = 64 * units.MS]. *)
Definition MAX_SAMPLE_NUMBER : Z := 64000000.

(** The calls into the driver and the collaborators. *)
Inductive command : Type :=
| OpenChannels
| ChannelAmp (card ch : Z) (volts : Q)
| ChannelCoupling (card ch : Z) (c : SensorCoupling)
| ChannelTermination (card ch : Z) (low : bool)
| CardMode (i : nat)
| CardTimeout (i : nat) (seconds : Q)
| TriggerSetup (i : nat) (level : Q)
| ClockSetup (i : nat) (mhz : Q)
| TransferDuration (i : nat) (duration post_trigger_duration : Q)
| StartBufferTransfer (i : nat)
| SyncEnable
| Start
| SaveToFile (data : ndarray)
| PlotData (data : ndarray).

Inductive level : Type := WARNING | ERROR.

(** What a run does, in program order of the coordinator.  A driver call
    is a [Call], followed by its [Return] when it does not raise.
    Info-level log lines are not recorded. *)
Inductive event : Type :=
| Call (c : command)
| Return (c : command)
| Log (l : level) (msg : string)
| Launch (i : nat)
| WorkerExit (i : nat) (x : thread_exit)
| Join (i : nat)
| Assemble.

(** The hardware of one run. *)
Record Rig : Type := mkRig {
  stack_cards : list bool;          (* per card: [function_type() == SPCM_TYPE_AI] *)
  stack_channels : list (Z * Z);    (* per channel: [(card.sn(), index)] *)
  fault_at : command -> option exn; (* the driver calls that raise *)
  wait_dma : nat -> device_outcome; (* per card: what the wait ends in *)
  convert_data : Z -> Q             (* raw count to volts *)
}.

(** Computations of the coordinator: the events emitted, and a value or
    the exception raised. *)
Definition M (A : Type) : Type := list event * result A.

Definition ret {A} (a : A) : M A := ([], Ok a).

Definition raise {A} (e : exn) : M A := ([], Raise e).

Definition bind {A B} (m : M A) (f : A -> M B) : M B :=
  match m with
  | (t, Ok a) => let '(t', r) := f a in (t ++ t', r)
  | (t, Raise e) => (t, Raise e)
  end.

Definition emit (ev : event) : M unit := ([ev], Ok tt).

Notation "x <- m ;; k" := (bind m (fun x => k))
  (at level 61, m at next level, right associativity).
Notation "m ;;; k" := (bind m (fun _ => k))
  (at level 61, right associativity).

(** [try: m except Exception as e: process_logger.error(msg); raise e] *)
Definition logged {A} (msg : string) (m : M A) : M A :=
  match m with
  | (t, Raise e) => (t ++ [Log ERROR msg], Raise e)
  | ok => ok
  end.

Definition hw (rig : Rig) (c : command) : M unit :=
  emit (Call c) ;;;
  match fault_at rig c with
  | Some e => raise e
  | None => emit (Return c)
  end.

Fixpoint for_each {A} (body : A -> M unit) (l : list A) : M unit :=
  match l with
  | [] => ret tt
  | a :: l' => body a ;;; for_each body l'
  end.

Fixpoint enumerate_from {A} (i : nat) (l : list A) : list (nat * A) :=
  match l with
  | [] => []
  | a :: l' => (i, a) :: enumerate_from (S i) l'
  end.

(** *** Channel configuration (lines 90-157) *)

Definition entry_matches (card ch : Z) (entry : SensorParams) : bool :=
  (sensor_card entry =? card) && (sensor_channel entry =? ch).

(** The inner loop over one [card_entry] list: the first matching entry is
    applied and the loop is left. *)
Definition configure_from (rig : Rig) (card ch : Z)
    (card_entry : list SensorParams) : M bool :=
  match find (entry_matches card ch) card_entry with
  | Some entry =>
      hw rig (ChannelAmp card ch (sensor_amp_level entry)) ;;;
      hw rig (ChannelCoupling card ch (sensor_coupling entry)) ;;;
      hw rig (ChannelTermination card ch
                match sensor_input_impedance entry with
                | LOW_IMPEDANCE => true
                | HIGH_IMPEDANCE => false
                end) ;;;
      ret true
  | None => ret false
  end.

Definition configure_channel (rig : Rig) (p : AcqParams) (c : Z * Z)
    : M unit :=
  let '(card, ch) := c in
  found0 <- configure_from rig card ch (sensors_card_0 p) ;;
  found1 <- configure_from rig card ch (sensors_card_1 p) ;;
  if found0 || found1 then ret tt
  else
    emit (Log ERROR "Channel not found in acquisition parameters.") ;;;
    raise (ValueError "Channel not found in acquisition parameters.").

Definition configure_channels (rig : Rig) (p : AcqParams) : M unit :=
  logged "Error configuring channels"
    (hw rig OpenChannels ;;;
     for_each (configure_channel rig p) (stack_channels rig)).

(** *** Per-card setup (lines 168-295) *)

Definition total_duration (p : AcqParams) : Q :=
  (pre_acquisition_duration p + acquisition_duration p
   + post_acquisition_duration p)%Q.

(** Lines 233-242: the expected number of samples.  The two products are
    exact here; the code rounds each to binary64, and [int] of a product
    that has overflowed raises. *)
Definition num_samples (p : AcqParams) : Z :=
  int (inject_Z (int (total_duration p)) * sample_rate p * 1000000)%Q.

Record TransferWindow : Type := mkWindow {
  window_samples : Z;
  acq_duration : Q;
  post_acq_duration : Q
}.

(** Lines 243-275: the window programmed into the card, with the warnings
    logged on the way. *)
Definition transfer_window (p : AcqParams) : M TransferWindow :=
  if MAX_SAMPLE_NUMBER <? num_samples p then
    emit (Log WARNING "Requested number of samples exceeds maximum.") ;;;
    let acq_duration :=
      (inject_Z MAX_SAMPLE_NUMBER / (sample_rate p * 1000000))%Q in
    let post_acq_duration :=
      (acq_duration - pre_acquisition_duration p)%Q in
    emit (Log WARNING "Adjusted acquisition time and post-trigger time.") ;;;
    ret (mkWindow MAX_SAMPLE_NUMBER acq_duration post_acq_duration)
  else
    ret (mkWindow (num_samples p) (total_duration p)
           (acquisition_duration p + post_acquisition_duration p)%Q).

(** Lines 184-206. *)
Definition setup_timeout (rig : Rig) (p : AcqParams) (i : nat) : M unit :=
  if Qle_bool (card_timeout p) 0 then ret tt
  else if Qle_bool (card_timeout p) (total_duration p) then
    emit (Log WARNING "Total acquisition time exceeds timeout duration.") ;;;
    hw rig (CardTimeout i (total_duration p + 5)%Q)
  else hw rig (CardTimeout i (card_timeout p)).

Definition setup_card (rig : Rig) (p : AcqParams) (c : nat * bool)
    : M unit :=
  let '(i, is_ai) := c in
  if negb is_ai then
    emit (Log ERROR "This example is for A/D cards only.") ;;;
    raise (SpcmException "This example is for A/D cards only.")
  else
    hw rig (CardMode i) ;;;
    setup_timeout rig p i ;;;
    hw rig (TriggerSetup i (trigger_level p)) ;;;
    hw rig (ClockSetup i (sample_rate p)) ;;;
    w <- transfer_window p ;;
    hw rig (TransferDuration i (acq_duration w) (post_acq_duration w)) ;;;
    hw rig (StartBufferTransfer i).

Definition setup_cards (rig : Rig) (p : AcqParams) : M unit :=
  logged "Error configuring card stack"
    (for_each (setup_card rig p) (enumerate_from 0 (stack_cards rig))).

(** *** Synchronised start (lines 297-310) *)

Definition synchronized_start (rig : Rig) : M unit :=
  logged "Error starting acquisition"
    (hw rig SyncEnable ;;; hw rig Start).

(** *** Fan-out and fan-in (lines 313-334) *)

(** The pool of started workers: each thread with its exit once it has
    run, and the shared exception queue. *)
Record Pool : Type := mkPool {
  pool_threads : list (CardThread * option thread_exit);
  exc_queue : list exn
}.

Definition threads_of (rig : Rig) : list CardThread :=
  map (fun c => mkCardThread (fst c) (wait_dma rig (fst c)) true)
      (enumerate_from 0 (stack_cards rig)).

Fixpoint run_in (i : nat) (ts : list (CardThread * option thread_exit))
    (q : list exn)
    : list (CardThread * option thread_exit) * list exn * list event :=
  match ts with
  | [] => ([], q, [])
  | (t, st) :: ts' =>
      match st with
      | None =>
          if Nat.eqb (card_index t) i then
            let '(q', x) := CardThread_run t q in
            ((t, Some x) :: ts', q', [WorkerExit i x])
          else
            let '(ts'', q', ev) := run_in i ts' q in
            ((t, st) :: ts'', q', ev)
      | Some _ =>
          let '(ts'', q', ev) := run_in i ts' q in
          ((t, st) :: ts'', q', ev)
      end
  end.

(** Worker [i] runs to its end, if it is started and has not run yet. *)
Definition run_worker (i : nat) (pl : Pool) : Pool * list event :=
  let '(ts, q, ev) := run_in i (pool_threads pl) (exc_queue pl) in
  (mkPool ts q, ev).

(** The workers finish in the order the scheduler picks. *)
Fixpoint run_schedule (sched : list nat) (pl : Pool) : Pool * list event :=
  match sched with
  | [] => (pl, [])
  | i :: sched' =>
      let '(pl1, ev1) := run_worker i pl in
      let '(pl2, ev2) := run_schedule sched' pl1 in
      (pl2, ev1 ++ ev2)
  end.

(** [for t in threads: t.join()]: a worker that has not finished yet
    finishes while the coordinator waits for it. *)
Fixpoint join_all (ts : list (CardThread * option thread_exit))
    (q : list exn)
    : list (CardThread * option thread_exit) * list exn * list event :=
  match ts with
  | [] => ([], q, [])
  | (t, st) :: ts' =>
      let '(x, q1, ev1) :=
        match st with
        | Some x => (x, q, [])
        | None =>
            let '(q', x) := CardThread_run t q in
            (x, q', [WorkerExit (card_index t) x])
        end in
      let '(ts'', q2, ev2) := join_all ts' q1 in
      ((t, Some x) :: ts'', q2, ev1 ++ [Join (card_index t)] ++ ev2)
  end.

(** Threads are created and started one by one, then joined; [sched] is
    the order in which the scheduler lets workers finish before the
    coordinator waits for them.  The trace records the launches first and
    the exits after them: only the order of the exits among themselves,
    which is the order of the queue, depends on the scheduler. *)
Definition fan_out_fan_in (rig : Rig) (sched : list nat) : Pool * list event :=
  let ts := threads_of rig in
  let launched := mkPool (map (fun t => (t, None)) ts) [] in
  let '(pl1, ev1) := run_schedule sched launched in
  let '(ts2, q2, ev2) := join_all (pool_threads pl1) (exc_queue pl1) in
  (mkPool ts2 q2, map Launch (map card_index ts) ++ ev1 ++ ev2).

Definition caught_msg : string := "Caught exception from thread".

Definition thread_failure_msg : string :=
  "Caught exception from thread during acquisition.".

(** Lines 330-334: the queue is drained and one failure is raised. *)
Definition check_queue (q : list exn) : M unit :=
  match q with
  | [] => ret tt
  | _ :: _ =>
      for_each (fun _ => emit (Log ERROR caught_msg)) q ;;;
      raise (RuntimeError thread_failure_msg)
  end.

(** *** Assembly and post-processing (lines 336-375) *)

Definition lift {A} (r : result A) : M A := ([], r).

(** The buffers of the transfers, card by card. *)
Definition buffers_of (pl : Pool) : list (list (list Z)) :=
  map (fun ts => match card_obj (fst ts) with
                 | DataReady buffer => buffer
                 | DeviceFault _ => []
                 end)
      (pool_threads pl).

(** [list_of_data]: every channel of every buffer, converted to volts. *)
Definition list_of_data (rig : Rig) (pl : Pool) : list (list Q) :=
  flat_map (map (map (convert_data rig))) (buffers_of pl).

(** [np.array(list_of_data).T]: channels of unequal length do not form an
    array.  The empty array of a run without channels is the matrix
    without rows and columns. *)
Definition array_T (chans : list (list Q)) : result ndarray :=
  match chans with
  | [] => Ok (mkArray 0 [])
  | c0 :: _ =>
      if forallb (fun c => Nat.eqb (length c) (length c0)) chans then
        Ok (mkArray (length chans)
              (map (fun s => map (fun c => nth s c 0%Q) chans)
                   (seq 0 (length c0))))
      else Raise (ValueError "inhomogeneous shape")
  end.

Definition channel_check (data : ndarray) (p : AcqParams) : M unit :=
  if with_channel_check p then
    flags <- lift (Detector.detect_dissimilar_channels data p) ;;
    if existsb (fun f => 0 <? f) flags then
      emit (Log WARNING "Detected dissimilar channels") ;;;
      emit (Log WARNING "Identified dissimilar channels")
    else ret tt
  else ret tt.

Definition encountered_msg : string := "Encountered exception".

Definition acquire (rig : Rig) (sched : list nat) (p : AcqParams) : M unit :=
  logged encountered_msg
    (let '(pl, ev) := fan_out_fan_in rig sched in
     (ev, Ok tt) ;;;
     check_queue (exc_queue pl) ;;;
     emit Assemble ;;;
     data_arr <- lift (array_T (list_of_data rig pl)) ;;
     data_arr <- lift (crop_data data_arr p) ;;
     channel_check data_arr p ;;;
     hw rig (SaveToFile data_arr) ;;;
     if with_plot p then hw rig (PlotData data_arr) else ret tt).

(** [run_acquisition]: the events of the run, and how it ends. *)
Definition run_acquisition (rig : Rig) (sched : list nat) (p : AcqParams)
    : M unit :=
  configure_channels rig p ;;;
  setup_cards rig p ;;;
  synchronized_start rig ;;;
  acquire rig sched p.

Definition trace_of {A} (m : M A) : list event := fst m.
Definition outcome_of {A} (m : M A) : result A := snd m.

(** *** Vocabulary of the statements *)

(** Every occurrence of [b] in the trace comes after an [a]. *)
Definition before (a b : event) (tr : list event) : Prop :=
  forall pre post, tr = pre ++ b :: post -> In a pre.

(** The events of channel configuration and card setup: driver calls
    other than those of the synchronised start and of persistence, and log
    lines other than that of a drained fault. *)
Definition setup_event (ev : event) : bool :=
  match ev with
  | Call c | Return c =>
      match c with
      | SyncEnable | Start | SaveToFile _ | PlotData _ => false
      | _ => true
      end
  | Log _ msg => negb (String.eqb msg caught_msg)
  | _ => false
  end.

(** The events of the workers and of the coordinator around them. *)
Definition pool_event (ev : event) : bool :=
  match ev with
  | Launch _ | WorkerExit _ Returned | Join _ => true
  | _ => false
  end.

(** Every worker of the pool reports to the queue, and every worker that
    has finished has returned, its fault, if any, being in the queue. *)
Definition pool_ok (ts : list (CardThread * option thread_exit))
    (q : list exn) : Prop :=
  Forall (fun ts =>
            has_ex_queue (fst ts) = true /\
            forall x, snd ts = Some x ->
              x = Returned /\
              forall e, card_obj (fst ts) = DeviceFault e -> In e q)
         ts.

(** The events of assembly and of what follows it. *)
Definition assembly_event (ev : event) : bool :=
  match ev with
  | Assemble => true
  | Call c | Return c =>
      match c with
      | SaveToFile _ | PlotData _ => true
      | _ => false
      end
  | _ => false
  end.

(** The events of the synchronised start. *)
Definition sync_event (ev : event) : bool :=
  match ev with
  | Call SyncEnable | Return SyncEnable | Call Start | Return Start => true
  | _ => false
  end.

End Coordinator.

(** ** Configuration loader ([helper_functions.parse_args]) *)

Module Config.

Local Open Scope string_scope.

(** A value [json.load] returns.  [JFloat q] is a finite float; [JNaN] and
    [JInfinity] are the floats of the literals [NaN], [Infinity] and
    [-Infinity], which [json.load] accepts. *)
#[warnings="-register-all"]
Inductive json : Type :=
| JNull
| JBool (b : bool)
| JInt (z : Z)
| JFloat (q : Q)
| JNaN
| JInfinity (negative : bool)
| JString (s : string)
| JArray (l : list json)
| JObject (items : list (string * json)).

(** A value of [default_params]: a JSON value, or the sensor list built
    from one. *)
Inductive pyval : Type :=
| PJson (j : json)
| PSensors (l : list SensorParams).

(** A Python [dict] by its items, in insertion order. *)
Definition dict : Type := list (string * pyval).

Fixpoint dict_get (key : string) (d : dict) : option pyval :=
  match d with
  | [] => None
  | (k, v) :: d' => if String.eqb k key then Some v else dict_get key d'
  end.

Definition dict_mem (key : string) (d : dict) : bool :=
  match dict_get key d with Some _ => true | None => false end.

(** [d[key] = v] for a key that is present: the item keeps its place. *)
Fixpoint dict_set (key : string) (v : pyval) (d : dict) : dict :=
  match d with
  | [] => [(key, v)]
  | (k, w) :: d' =>
      if String.eqb k key then (k, v) :: d' else (k, w) :: dict_set key v d'
  end.

Definition default_sensors (card : Z) : pyval :=
  PSensors [SensorParams_at card 0; SensorParams_at card 1].

(** Lines 307-335. *)
Definition default_params : dict :=
  [ ("data_format", PJson (JString "PQT"));
    ("card_identifiers",
       PJson (JArray [JString "/dev/spcm0"; JString "/dev/spcm1"]));
    ("sync_identifier", PJson (JString "sync0"));
    ("channel_amp_level", PJson (JFloat 10));
    ("card_timeout", PJson (JFloat 25));
    ("trigger_level", PJson (JFloat 2));
    ("trigger_channel_no", PJson (JInt 0));
    ("emission_on_channel_no", PJson (JInt 1));
    ("sample_rate", PJson (JFloat 2));
    ("sensors_card_0", default_sensors 0);
    ("sensors_card_1", default_sensors 1);
    ("acquisition_duration", PJson (JFloat 20));
    ("pre_acquisition_duration", PJson (JFloat 1));
    ("post_acquisition_duration", PJson (JFloat 1));
    ("target_file_name", PJson (JString "data.pqt"));
    ("sensitivity_threshold", PJson (JFloat (12 # 10)));
    ("with_crop", PJson (JString "True"));
    ("with_plot", PJson (JString "True"));
    ("with_channel_check", PJson (JBool false));
    ("cur_version", PJson (JInt 1)) ].

Definition is_digit (c : Ascii.ascii) : bool :=
  let n := Ascii.nat_of_ascii c in (48 <=? n)%nat && (n <=? 57)%nat.

Fixpoint all_digits (s : string) : bool :=
  match s with
  | EmptyString => true
  | String c s' => is_digit c && all_digits s'
  end.

Fixpoint strip_prefix (pre s : string) : option string :=
  match pre, s with
  | EmptyString, _ => Some s
  | String a pre', String b s' =>
      if Ascii.eqb a b then strip_prefix pre' s' else None
  | String _ _, EmptyString => None
  end.

(** [re.fullmatch(r"sensors_card_(\d+)", key)] *)
Definition is_sensors_key (key : string) : bool :=
  match strip_prefix "sensors_card_" key with
  | Some EmptyString => false
  | Some rest => all_digits rest
  | None => false
  end.

Definition lower (c : Ascii.ascii) : Ascii.ascii :=
  let n := Ascii.nat_of_ascii c in
  if (65 <=? n)%nat && (n <=? 90)%nat then Ascii.ascii_of_nat (n + 32) else c.

Fixpoint lower_string (s : string) : string :=
  match s with
  | EmptyString => EmptyString
  | String c s' => String (lower c) (lower_string s')
  end.

(** [re.match("true", str(v), re.IGNORECASE)]: of the texts [str] gives a
    loaded value, only that of [true] and those of strings can begin with
    the word. *)
Definition matches_true (v : pyval) : bool :=
  match v with
  | PJson (JBool b) => b
  | PJson (JString s) =>
      match strip_prefix "true" (lower_string s) with
      | Some _ => true
      | None => false
      end
  | _ => false
  end.

(** What [for x in value] yields for a loaded value. *)
Definition iterate (value : json) : result (list json) :=
  match value with
  | JArray l => Ok l
  | JString s =>
      Ok (map (fun c => JString (String c EmptyString)) (list_ascii_of_string s))
  | JObject items => Ok (map (fun kv => JString (fst kv)) items)
  | JNull | JBool _ | JInt _ | JFloat _ | JNaN | JInfinity _ =>
      Raise TypeError
  end.

Fixpoint map_result {A B} (f : A -> result B) (l : list A) : result (list B) :=
  match l with
  | [] => Ok []
  | a :: l' =>
      match f a with
      | Raise e => Raise e
      | Ok b =>
          match map_result f l' with
          | Raise e => Raise e
          | Ok bs => Ok (b :: bs)
          end
      end
  end.

Section Loader.

(** [serde.json.from_dict(SensorParams, _)], of the pyserde library. *)
Variable from_dict : json -> result SensorParams.

(** Lines 342-361: the items of the loaded file override the defaults. *)
Fixpoint merge (items : list (string * json)) (params : dict) : result dict :=
  match items with
  | [] => Ok params
  | (key, value) :: items' =>
      if dict_mem key params then
        if is_sensors_key key then
          match iterate value with
          | Raise e => Raise e
          | Ok entries =>
              match map_result from_dict entries with
              | Raise e => Raise e
              | Ok sensors => merge items' (dict_set key (PSensors sensors) params)
              end
          end
        else merge items' (dict_set key (PJson value) params)
      else merge items' params
  end.

(** Lines 363-369: the log of the merged parameters reads the first
    element of every list. *)
Definition is_empty_list (v : pyval) : bool :=
  match v with
  | PJson (JArray []) => true
  | PSensors [] => true
  | _ => false
  end.

Definition log_params (params : dict) : result unit :=
  if existsb (fun kv => is_empty_list (snd kv)) params
  then Raise IndexError else Ok tt.

(** [v < 2]: a comparison with NaN is false. *)
Definition below_2 (v : pyval) : result bool :=
  match v with
  | PJson (JInt z) => Ok (z <? 2)%Z
  | PJson (JFloat q) => Ok (negb (Qle_bool 2 q))
  | PJson JNaN => Ok false
  | PJson (JInfinity negative) => Ok negative
  | PJson (JBool b) => Ok true
  | _ => Raise TypeError
  end.

(** The keyword arguments [AcqParams] is built from (lines 381-414). *)
Record AcqParamsArgs : Type := mkArgs {
  arg_card_identifiers : pyval;
  arg_sync_identifier : pyval;
  arg_sensors_card_0 : pyval;
  arg_sensors_card_1 : pyval;
  arg_card_timeout : pyval;
  arg_trigger_level : pyval;
  arg_trigger_channel_no : pyval;
  arg_emission_on_channel_no : pyval;
  arg_sample_rate : pyval;
  arg_data_format : FileFormat;
  arg_acquisition_duration : pyval;
  arg_pre_acquisition_duration : pyval;
  arg_sensitivity_threshold : pyval;
  arg_with_crop : bool;
  arg_with_plot : bool;
  arg_with_channel_check : bool
}.

Definition item (key : string) (params : dict) : pyval :=
  match dict_get key params with
  | Some v => v
  | None => PJson JNull
  end.

Definition build (params : dict) : AcqParamsArgs :=
  mkArgs (item "card_identifiers" params)
         (item "sync_identifier" params)
         (item "sensors_card_0" params)
         (item "sensors_card_1" params)
         (item "card_timeout" params)
         (item "trigger_level" params)
         (item "trigger_channel_no" params)
         (item "emission_on_channel_no" params)
         (item "sample_rate" params)
         (match item "data_format" params with
          | PJson (JString "CSV") => CSV
          | _ => PQT
          end)
         (item "acquisition_duration" params)
         (item "pre_acquisition_duration" params)
         (item "sensitivity_threshold" params)
         (matches_true (item "with_crop" params))
         (matches_true (item "with_plot" params))
         (matches_true (item "with_channel_check" params)).

(** *** The check of the constructor arguments

    [AcqParams] is a [@serde.serde] class: its constructor checks every
    argument against the declared type of the field and raises
    [SerdeError] for one that does not conform.  The check is an
    [isinstance] test, so a [bool] passes for [int] and an [int] does not
    pass for [float]; of a list, one item is tested. *)

(** The position the check samples in a list of the given length. *)
Variable pick : nat -> nat.

(** [float] *)
Definition is_float (v : pyval) : bool :=
  match v with
  | PJson (JFloat _) | PJson JNaN | PJson (JInfinity _) => true
  | _ => false
  end.

(** [int] *)
Definition is_int (v : pyval) : bool :=
  match v with
  | PJson (JInt _) | PJson (JBool _) => true
  | _ => false
  end.

(** [str] *)
Definition is_str (v : pyval) : bool :=
  match v with
  | PJson (JString _) => true
  | _ => false
  end.

(** The item of a list the check looks at, if the list has one. *)
Definition sampled {A} (l : list A) : option A :=
  match l with
  | [] => None
  | _ :: _ => nth_error l (pick (length l) mod length l)
  end.

(** [list[str]] *)
Definition is_list_of_str (v : pyval) : bool :=
  match v with
  | PJson (JArray l) =>
      match sampled l with
      | Some (JString _) | None => true
      | Some _ => false
      end
  | PSensors l =>
      match sampled l with
      | Some _ => false
      | None => true
      end
  | _ => false
  end.

(** [list[SensorParams]]: no loaded value is a [SensorParams]. *)
Definition is_list_of_sensors (v : pyval) : bool :=
  match v with
  | PSensors _ => true
  | PJson (JArray l) =>
      match sampled l with
      | Some _ => false
      | None => true
      end
  | _ => false
  end.

(** The arguments that are computed, [data_format] and the three flags,
    have the declared type by construction. *)
Definition type_check (a : AcqParamsArgs) : bool :=
  is_list_of_str (arg_card_identifiers a)
  && is_str (arg_sync_identifier a)
  && is_list_of_sensors (arg_sensors_card_0 a)
  && is_list_of_sensors (arg_sensors_card_1 a)
  && is_float (arg_card_timeout a)
  && is_float (arg_trigger_level a)
  && is_int (arg_trigger_channel_no a)
  && is_int (arg_emission_on_channel_no a)
  && is_float (arg_sample_rate a)
  && is_float (arg_acquisition_duration a)
  && is_float (arg_pre_acquisition_duration a)
  && is_float (arg_sensitivity_threshold a).

(** [AcqParams(...)] *)
Definition construct (a : AcqParamsArgs) : result AcqParamsArgs :=
  if type_check a then Ok a else Raise SerdeError.

(** How the command line and the file system answer an invocation. *)
Inductive invocation : Type :=
| BadArguments
| NoConfigFile
| ConfigFile (loaded : result json).

Definition outdated_msg : string :=
  "The current version of the acquisition parameters is outdated. Please update to the latest version.".

(** Lines 376-415. *)
Definition finish (params : dict) : result AcqParamsArgs :=
  match dict_get "cur_version" params with
  | None => Raise KeyError
  | Some v =>
      match below_2 v with
      | Raise e => Raise e
      | Ok true => Raise (ValueError outdated_msg)
      | Ok false => construct (build params)
      end
  end.

Definition parse_args (inv : invocation) : result AcqParamsArgs :=
  match inv with
  | BadArguments => Raise SystemExit
  | NoConfigFile => finish default_params
  | ConfigFile (Raise e) => Raise e
  | ConfigFile (Ok (JObject items)) =>
      match merge items default_params with
      | Raise e => Raise e
      | Ok params =>
          match log_params params with
          | Raise e => Raise e
          | Ok _ => finish params
          end
      end
  | ConfigFile (Ok _) => Raise AttributeError
  end.

End Loader.

(** The value the loaded file gives [key]: its last occurrence. *)
Fixpoint supplied (key : string) (items : list (string * json)) : option json :=
  match items with
  | [] => None
  | (k, v) :: items' =>
      match supplied key items' with
      | Some w => Some w
      | None => if String.eqb k key then Some v else None
      end
  end.

(** A number that is at least two. *)
Definition at_least_2 (v : json) : bool :=
  match v with
  | JInt z => (2 <=? z)%Z
  | JFloat q => Qle_bool 2 q
  | JInfinity negative => negb negative
  | _ => false
  end.

(** The file gives [cur_version] the float NaN. *)
Definition supplies_nan_version (inv : invocation) : bool :=
  match inv with
  | ConfigFile (Ok (JObject items)) =>
      match supplied "cur_version" items with
      | Some JNaN => true
      | _ => false
      end
  | _ => false
  end.

(** The file [{"cur_version": NaN}]. *)
Definition nan_version_items : list (string * json) :=
  [ ("cur_version", JNaN) ].

(** The invocation loads a file whose [cur_version] is at least two. *)
Definition supplies_version_2 (inv : invocation) : bool :=
  match inv with
  | ConfigFile (Ok (JObject items)) =>
      match supplied "cur_version" items with
      | Some v => at_least_2 v
      | None => false
      end
  | _ => false
  end.

End Config.

(** ** Vocabulary of the detector statements *)

(** Two waveforms are equal sample by sample. *)
Fixpoint same_waveform (c c' : list Q) : bool :=
  match c, c' with
  | [], [] => true
  | x :: c1, y :: c1' => Qeq_bool x y && same_waveform c1 c1'
  | _, _ => false
  end.

(** All channels of the matrix carry the same waveform. *)
Definition identical_channels (data : ndarray) : bool :=
  forallb (fun c => forallb (same_waveform c) (channels_of data))
          (channels_of data).

(** ** Inputs of the examples *)

(** The parameters of the class, with the durations and the rate given. *)
Definition params_with (pre main post rate : Q) (crop : bool) : AcqParams :=
  mkAcqParams ["/dev/spcm0"; "/dev/spcm1"]%string "sync0"
    [SensorParams_at 0 0] [SensorParams_at 1 0]
    5 2 0 1 "data.pqt" rate PQT main post pre 2 2 crop true false.

(** Eight samples of four channels; channel 0 is above the level of 2 V
    from sample 2 to sample 5, so it crosses at 1 and at 5. *)
Definition pulse_data : ndarray :=
  mkArray 4
    [ [0; 0; 0; 0]; [0; 0; 0; 0]; [3; 0; 0; 0]; [3; 0; 0; 0];
      [3; 0; 0; 0]; [3; 0; 0; 0]; [0; 0; 0; 0]; [0; 0; 0; 0] ]%Q.

Definition pulse_params : AcqParams := params_with 1 6 1 2 true.

(** A trigger channel that stays below the level. *)
Definition flat_data : ndarray :=
  mkArray 2 [ [1; 0]; [1; 5]; [1; 0] ]%Q.

(** One second at 11.71875 kHz. *)
Definition khz_params : AcqParams := params_with 0 1 0 (3 # 256) true.

(** Thirty-two and a half seconds at 2 MHz. *)
Definition long_params : AcqParams := params_with (1 # 2) 32 0 2 true.

(** Forty seconds at 2 MHz. *)
Definition longer_params : AcqParams := params_with 4 32 4 2 true.

(** Three channels with the same ramp. *)
Definition twin_data : ndarray :=
  mkArray 3 [ [1; 1; 1]; [2; 2; 2]; [5; 5; 5]; [3; 3; 3] ]%Q.

(** Eighteen channels with the same waveform of two samples, 0 V and
    1 V. *)
Definition identical18 : ndarray :=
  mkArray 18 [repeat 0%Q 18; repeat 1%Q 18].

(** The parameters of the class with a sensitivity threshold of 0.5. *)
Definition half_params : AcqParams :=
  mkAcqParams ["/dev/spcm0"; "/dev/spcm1"]%string "sync0"
    [SensorParams_at 0 0] [SensorParams_at 1 0]
    5 2 0 1 "data.pqt" 2 PQT 10 2 2 (1 # 2) 2 true true true.

(** Two digitizers with one channel each, no driver call failing; [waits]
    says what the wait of each card ends in. *)
Definition two_cards (waits : nat -> device_outcome) : Coordinator.Rig :=
  Coordinator.mkRig [true; true] [(0, 0); (1, 0)] (fun _ => None) waits
    inject_Z.

(** Both cards deliver a pulse. *)
Definition healthy_rig : Coordinator.Rig :=
  two_cards (fun _ => DataReady [[0; 0; 3; 3; 3; 3; 0; 0]]).

(** The wait of card 1 times out. *)
Definition faulty_rig : Coordinator.Rig :=
  two_cards (fun i => match i with
                      | 1%nat => DeviceFault (DriverError 263)
                      | _ => DataReady [[0; 0; 3; 3; 3; 3; 0; 0]]
                      end).

(** * Further parts of the code *)

(** ** [FileFormat.from_str] ([data_classes/file_format.py]) *)

(** The value of a member of the enum. *)
Definition FileFormat_value (f : FileFormat) : string :=
  match f with
  | CSV => "CSV"
  | PQT => "PQT"
  end.

(** The members are tried in the order of their declaration. *)
Definition FileFormat_from_str (value : string) : result FileFormat :=
  if String.eqb (FileFormat_value CSV) value then Ok CSV
  else if String.eqb (FileFormat_value PQT) value then Ok PQT
  else Raise (ValueError (value ++ " is not a valid FileFormat")).

(** ** The sensor of a plotted channel ([helper_functions.plot_data]) *)

(** Lines 129-138: the sensor list and the entry in it that describe
    channel [i] of the matrix. *)
Definition sensor_of_channel (p : AcqParams) (i : nat) : result SensorParams :=
  let sensor_card :=
    if (i <? length (sensors_card_0 p))%nat
    then sensors_card_0 p else sensors_card_1 p in
  let card_entry_no :=
    if (i <? length (sensors_card_0 p))%nat
    then i else (i - length (sensors_card_0 p))%nat in
  match nth_error sensor_card card_entry_no with
  | Some s => Ok s
  | None => Raise IndexError
  end.

(** ** Vocabulary of the further detector statements *)

(** The number of scores: one per channel, and one for the single zero
    [squareform] makes of no distance at all. *)
Definition score_count (data : ndarray) : nat := Nat.max (ncols data) 1.

(** The parameters [p] with another sensitivity threshold. *)
Definition with_threshold (threshold : Q) (p : AcqParams) : AcqParams :=
  mkAcqParams (card_identifiers p) (sync_identifier p)
    (sensors_card_0 p) (sensors_card_1 p) (card_timeout p) (trigger_level p)
    (trigger_channel_no p) (emission_on_channel_no p) (target_file_name p)
    (sample_rate p) (data_format p) (acquisition_duration p)
    (post_acquisition_duration p) (pre_acquisition_duration p)
    threshold (cur_version p) (with_crop p) (with_plot p)
    (with_channel_check p).

(** ** Vocabulary of the further coordinator statements *)

(** An error line of the log. *)
Definition error_log (ev : Coordinator.event) : bool :=
  match ev with
  | Coordinator.Log Coordinator.ERROR _ => true
  | _ => false
  end.

(** The events of channel configuration alone. *)
Definition configuration_event (ev : Coordinator.event) : bool :=
  match ev with
  | Coordinator.Call c | Coordinator.Return c =>
      match c with
      | Coordinator.OpenChannels | Coordinator.ChannelAmp _ _ _
      | Coordinator.ChannelCoupling _ _ _
      | Coordinator.ChannelTermination _ _ _ => true
      | _ => false
      end
  | Coordinator.Log _ _ => true
  | _ => false
  end.

(** The message of the error raised for a channel without an entry. *)
Definition not_found_msg : string :=
  "Channel not found in acquisition parameters.".

(** No entry of either sensor list names the channel. *)
Definition unmatched (p : AcqParams) (c : Z * Z) : bool :=
  match find (Coordinator.entry_matches (fst c) (snd c)) (sensors_card_0 p),
        find (Coordinator.entry_matches (fst c) (snd c)) (sensors_card_1 p)
  with
  | None, None => true
  | _, _ => false
  end.

(** A timeout given to a card is set only for a positive [card_timeout],
    and covers the whole acquisition. *)
Definition timeout_covers (p : AcqParams) (ev : Coordinator.event) : Prop :=
  match ev with
  | Coordinator.Call (Coordinator.CardTimeout _ s)
  | Coordinator.Return (Coordinator.CardTimeout _ s) =>
      (0 < card_timeout p)%Q /\ (Coordinator.total_duration p < s)%Q
  | _ => True
  end.

(** The fault of a worker, if its wait ends in one. *)
Definition fault_of (t : CardThread) : list exn :=
  match card_obj t with
  | DeviceFault e => [e]
  | DataReady _ => []
  end.

(** The faults of the workers that have finished. *)
Definition finished_faults (ts : list (CardThread * option thread_exit))
    : list exn :=
  flat_map (fun ts => match snd ts with
                      | Some _ => fault_of (fst ts)
                      | None => []
                      end) ts.

(** The faults of all the workers of a run. *)
Definition faults_of (rig : Coordinator.Rig) : list exn :=
  flat_map fault_of (Coordinator.threads_of rig).

(** Forty seconds before the trigger, at 2 MHz. *)
Definition early_params : AcqParams := params_with 40 0 0 2 true.

(** The hardware reports a second channel on card 1. *)
Definition extra_channel_rig : Coordinator.Rig :=
  Coordinator.mkRig [true; true] [(0, 0); (1, 0); (1, 1)] (fun _ => None)
    (fun _ => DataReady [[0; 0; 3; 3; 3; 3; 0; 0]]) inject_Z.

(** A computation that logs no error when it returns normally. *)
Definition quiet {A} (m : Coordinator.M A) : Prop :=
  forall a, Coordinator.outcome_of m = Ok a ->
            Forall (fun ev => error_log ev = false) (Coordinator.trace_of m).

(** A computation that, when it raises, has logged an error last. *)
Definition loud {A} (m : Coordinator.M A) : Prop :=
  forall e, Coordinator.outcome_of m = Raise e ->
            exists t msg,
              Coordinator.trace_of m
              = t ++ [Coordinator.Log Coordinator.ERROR msg].

(** Two channels of three samples. *)
Definition two_channels : list (list Q) := [ [1; 2; 3]; [4; 5; 6] ]%Q.


(** ** Vocabulary of the further loader statements *)

(** The value the merge stores for an item of a recognised key
    (lines 344-356). *)
Definition stored (from_dict : Config.json -> result SensorParams)
    (key : string) (value : Config.json) : result Config.pyval :=
  if Config.is_sensors_key key then
    match Config.iterate value with
    | Raise e => Raise e
    | Ok entries =>
        match Config.map_result from_dict entries with
        | Raise e => Raise e
        | Ok sensors => Ok (Config.PSensors sensors)
        end
    end
  else Ok (Config.PJson value).

(** The keys [parse_args] reads once the parameters are merged
    (lines 376-414). *)
Definition read_keys : list string :=
  [ "cur_version"; "card_identifiers"; "sync_identifier"; "sensors_card_0";
    "sensors_card_1"; "card_timeout"; "trigger_level"; "trigger_channel_no";
    "emission_on_channel_no"; "sample_rate"; "data_format";
    "acquisition_duration"; "pre_acquisition_duration";
    "sensitivity_threshold"; "with_crop"; "with_plot";
    "with_channel_check" ]%string.

(** A sensor loader that takes the card and the channel of an entry and
    refuses what is not an object. *)
Definition card_and_channel (j : Config.json) : result SensorParams :=
  match j with
  | Config.JObject
      [ ("sensor_card"%string, Config.JInt c);
        ("sensor_channel"%string, Config.JInt n) ] => Ok (SensorParams_at c n)
  | _ => Raise TypeError
  end.

(** A configuration file of the current version that names one sensor on
    card 0, and has a key the loader does not know. *)
Definition sample_items : list (string * Config.json) :=
  [ ("cur_version", Config.JInt 2);
    ("operator", Config.JString "lab");
    ("sensors_card_0",
       Config.JArray
         [ Config.JObject [ ("sensor_card", Config.JInt 0);
                            ("sensor_channel", Config.JInt 1) ] ]);
    ("sample_rate", Config.JFloat 4) ]%string.

(** The same file with no card identifiers. *)
Definition no_cards_items : list (string * Config.json) :=
  sample_items ++ [ ("card_identifiers"%string, Config.JArray []) ].
(** * Properties *)

(** ** Truncation *)

Lemma int_nonneg (x : Q) : (0 <= x)%Q -> int x = Qfloor x.
Proof.
  destruct x as [n d]. unfold int, Qfloor, Qle. cbn. intro H.
  apply Z.quot_div_nonneg; lia.
Qed.

Lemma int_neg (x : Q) : (x <= 0)%Q -> int x = Qceiling x.
Proof.
  destruct x as [n d]. unfold int, Qceiling, Qfloor, Qle. cbn. intro H.
  replace n with (- - n) at 1 by lia.
  rewrite Z.quot_opp_l by lia.
  rewrite Z.quot_div_nonneg by lia. reflexivity.
Qed.

(** [int] does not depend on the fraction that represents its argument. *)
Lemma int_compat (x y : Q) : (x == y)%Q -> int x = int y.
Proof.
  intro E. destruct (Qlt_le_dec x 0) as [L | L].
  - rewrite (int_neg x), (int_neg y).
    + unfold Qceiling. now rewrite E.
    + rewrite <- E. now apply Qlt_le_weak.
    + now apply Qlt_le_weak.
  - rewrite (int_nonneg x), (int_nonneg y); auto.
    + now rewrite E.
    + now rewrite <- E.
Qed.

Lemma int_inject_Z (n : Z) : int (inject_Z n) = n.
Proof. unfold int. cbn. apply Z.quot_1_r. Qed.

(** ** Crop engine *)

(** The trigger channel has no crossing exactly when consecutive samples
    lie on the same side of the level. *)
Lemma where_nonzero_nil (i : Z) (v : list Z) :
  where_nonzero i v = [] <-> Forall (fun x => x = 0) v.
Proof.
  revert i. induction v as [| x v IH]; intro i; cbn.
  - split; auto.
  - destruct (Z.eqb_spec x 0) as [E | E].
    + rewrite IH. split; intro H.
      * constructor; auto.
      * now inversion H.
    + split; intro H; [discriminate | now inversion H].
Qed.

Lemma diff_zero_constant (l : list Z) :
  Forall (fun x => x = 0) (diff l) <-> forall a b, In a l -> In b l -> a = b.
Proof.
  induction l as [| a [| b l] IH]; cbn [diff].
  - split; [intros _ ? ? [] | constructor].
  - split; [| constructor]. intros _ x y [<- | []] [<- | []]. reflexivity.
  - split.
    + intro H. inversion H as [| ? ? Hab Hrest]; subst.
      assert (a = b) by lia. subst a.
      destruct IH as [IH _]. specialize (IH Hrest).
      intros x y Hx Hy.
      assert (Hx' : In x (b :: l)) by (destruct Hx; [left | ]; auto).
      assert (Hy' : In y (b :: l)) by (destruct Hy; [left | ]; auto).
      auto.
    + intro H. constructor.
      * rewrite (H a b); cbn; auto. lia.
      * apply IH. intros x y Hx Hy. apply H; right; auto.
Qed.

Lemma no_crossings_iff_one_side (channel_data : list Q) (level : Q) :
  crossings_of channel_data level = [] <->
  forall x y, In x channel_data -> In y channel_data ->
              above level x = above level y.
Proof.
  unfold crossings_of. rewrite where_nonzero_nil, diff_zero_constant.
  split; intro H.
  - intros x y Hx Hy. apply H; now apply in_map.
  - intros a b Ha Hb.
    apply in_map_iff in Ha as [x [<- Hx]].
    apply in_map_iff in Hb as [y [<- Hy]]. auto.
Qed.

(** The window the code computes: the start is clamped at zero, the end at
    the second dimension of the array. *)
Lemma crop_window_spec (data : ndarray) (p : AcqParams) (c0 c1 : Z) :
  crop_window data p c0 c1 =
  (Z.max 0 (c0 - pre_trigger_samples p),
   Z.min (c1 + post_trigger_samples p) (Z.of_nat (shape1 data))).
Proof.
  unfold crop_window. f_equal.
  - destruct (Z.ltb_spec (pre_trigger_samples p) c0); lia.
  - destruct (Z.ltb_spec (c1 + post_trigger_samples p) (Z.of_nat (shape1 data))); lia.
Qed.

(** C1, at the failing input.  The trigger crosses at 1 and 5 and two
    samples are kept on either side, so the window of the claim ends at
    [min 8 (5 + 2) = 7]; the code ends it at 4, the number of channels,
    before the last crossing, and returns four of the eight rows. *)
Theorem crop_data_end_is_channel_count :
  column pulse_data (trigger_channel_no pulse_params)
    = Some [0; 0; 3; 3; 3; 3; 0; 0]%Q /\
  crossings_of [0; 0; 3; 3; 3; 3; 0; 0]%Q (trigger_level pulse_params) = [1; 5] /\
  pre_trigger_samples pulse_params = 2 /\
  post_trigger_samples pulse_params = 2 /\
  shape0 pulse_data = 8%nat /\
  crop_window pulse_data pulse_params 1 5 = (0, 4) /\
  Z.min (Z.of_nat (shape0 pulse_data)) (5 + 2) = 7 /\
  crop_data pulse_data pulse_params
    = Ok (mkArray 4 [ [0; 0; 0; 0]; [0; 0; 0; 0]; [3; 0; 0; 0]; [3; 0; 0; 0] ]%Q).
Proof. repeat split; vm_compute; reflexivity. Qed.

(** C3.  When the trigger channel has no crossing and cropping is enabled,
    [crop_data] raises the no-crossings [ValueError]. *)
Theorem crop_data_no_crossings (data : ndarray) (p : AcqParams)
    (channel_data : list Q) :
  with_crop p = true ->
  column data (trigger_channel_no p) = Some channel_data ->
  crossings_of channel_data (trigger_level p) = [] ->
  crop_data data p = Raise (ValueError no_crossings_msg).
Proof.
  intros Hcrop Hcol Hnone. unfold crop_data.
  rewrite Hcrop, Hcol, Hnone. reflexivity.
Qed.

Lemma crop_data_no_crossings_witness :
  crop_data flat_data pulse_params = Raise (ValueError no_crossings_msg).
Proof.
  apply (crop_data_no_crossings flat_data pulse_params [1; 1; 1]%Q);
    reflexivity.
Defined.

(** C4.  With cropping disabled the input is returned as it is. *)
Theorem crop_data_disabled_identity (data : ndarray) (p : AcqParams) :
  with_crop p = false -> crop_data data p = Ok data.
Proof. intro H. unfold crop_data. rewrite H. reflexivity. Qed.

Lemma crop_data_disabled_identity_witness :
  crop_data pulse_data (params_with 1 6 1 2 false) = Ok pulse_data.
Proof. apply crop_data_disabled_identity. reflexivity. Defined.

(** ** Sample count and clamping *)

Import Coordinator.

(** C2, as stated, fails: one second at 11718.75 Hz gives 11718 samples,
    not the 11719 of the rounded product (nor its rounding in MHz). *)
Lemma num_samples_is_not_rounded :
  num_samples khz_params = 11718 /\
  round (total_duration khz_params * sample_rate khz_params * 1000000)%Q = 11719 /\
  round (total_duration khz_params * sample_rate khz_params)%Q = 0 /\
  num_samples khz_params
    <> round (total_duration khz_params * sample_rate khz_params * 1000000)%Q /\
  num_samples khz_params
    <> round (total_duration khz_params * sample_rate khz_params)%Q.
Proof. repeat split; vm_compute; congruence. Qed.

(** C2, amended.  For a summed duration that is a whole number, the sample
    count is the product of the sum and the rate in Hz, truncated toward
    zero. *)
Theorem num_samples_whole_duration (p : AcqParams) (n : Z) :
  (total_duration p == inject_Z n)%Q ->
  num_samples p = int (total_duration p * sample_rate p * 1000000)%Q.
Proof.
  intro E. unfold num_samples.
  rewrite (int_compat _ _ E), int_inject_Z.
  apply int_compat. now rewrite E.
Qed.

Lemma num_samples_whole_duration_witness :
  num_samples khz_params
  = int (total_duration khz_params * sample_rate khz_params * 1000000)%Q.
Proof. apply (num_samples_whole_duration khz_params 1). reflexivity. Defined.

(** The truncated count is never above the requested one. *)
Lemma num_samples_le_requested (p : AcqParams) :
  (0 <= total_duration p)%Q -> (0 <= sample_rate p)%Q ->
  (inject_Z (num_samples p)
   <= total_duration p * sample_rate p * 1000000)%Q.
Proof.
  intros Hd Hr. unfold num_samples.
  assert (Hi : (inject_Z (int (total_duration p)) <= total_duration p)%Q).
  { rewrite int_nonneg by assumption. apply Qfloor_le. }
  assert (H0 : (0 <= inject_Z (int (total_duration p)))%Q).
  { rewrite int_nonneg by assumption.
    change 0%Q with (inject_Z 0). rewrite <- Zle_Qle.
    change 0 with (Qfloor (inject_Z 0)). now apply Qfloor_resp_le. }
  assert (Hm : (0 <= sample_rate p * 1000000)%Q).
  { apply Qmult_le_0_compat; [assumption | discriminate]. }
  rewrite int_nonneg.
  - eapply Qle_trans; [apply Qfloor_le |].
    rewrite <- !Qmult_assoc.
    apply Qmult_le_compat_r; assumption.
  - rewrite <- Qmult_assoc. apply Qmult_le_0_compat; assumption.
Qed.

(** When the count exceeds the ceiling, the window is clamped: two
    warnings, no error, a duration that fills the ceiling exactly, and the
    pre-trigger part unchanged. *)
Lemma transfer_window_clamped (p : AcqParams) :
  MAX_SAMPLE_NUMBER < num_samples p ->
  exists w,
    transfer_window p
    = ([Log WARNING "Requested number of samples exceeds maximum.";
        Log WARNING "Adjusted acquisition time and post-trigger time."],
       Ok w) /\
    window_samples w = MAX_SAMPLE_NUMBER /\
    (acq_duration w * (sample_rate p * 1000000)
     == inject_Z MAX_SAMPLE_NUMBER)%Q /\
    (acq_duration w - post_acq_duration w == pre_acquisition_duration p)%Q.
Proof.
  intro H. unfold transfer_window.
  destruct (Z.ltb_spec MAX_SAMPLE_NUMBER (num_samples p)) as [_ | C]; [| lia].
  eexists. split; [reflexivity |]. cbn.
  assert (Hr : ~ (sample_rate p * 1000000 == 0)%Q).
  { intro Z0. unfold num_samples in H.
    rewrite (int_compat _ 0%Q) in H.
    - unfold MAX_SAMPLE_NUMBER in H. cbn in H. lia.
    - rewrite <- Qmult_assoc, Z0. apply Qmult_0_r. }
  repeat split.
  - field. intro Z0. apply Hr. rewrite Z0. apply Qmult_0_l.
  - ring.
Qed.

(** C7, at the failing input.  Thirty-two and a half seconds at 2 MHz ask
    for 65 000 000 samples, above the ceiling of 64 000 000; the count the
    code compares is 64 000 000, so nothing is clamped and the window
    programmed into the card is the one asked for. *)
Theorem clamp_skipped_for_fractional_duration :
  (inject_Z MAX_SAMPLE_NUMBER
   < total_duration long_params * sample_rate long_params * 1000000)%Q /\
  num_samples long_params = 64000000 /\
  trace_of (transfer_window long_params) = [] /\
  exists w,
    outcome_of (transfer_window long_params) = Ok w /\
    window_samples w = 64000000 /\
    (acq_duration w == 65 # 2)%Q /\
    (inject_Z MAX_SAMPLE_NUMBER
     < acq_duration w * sample_rate long_params * 1000000)%Q.
Proof.
  split; [reflexivity |]. split; [reflexivity |]. split; [reflexivity |].
  eexists. split; [reflexivity |]. repeat split.
Qed.

(** The sibling case of a whole duration: forty seconds at 2 MHz are
    clamped to thirty-two. *)
Lemma clamp_applied_for_whole_duration :
  exists w,
    outcome_of (transfer_window longer_params) = Ok w /\
    window_samples w = 64000000 /\
    (acq_duration w == 32)%Q /\
    (post_acq_duration w == 28)%Q.
Proof. eexists. split; [reflexivity |]. repeat split. Qed.

(** ** Coordinator: traces of the phases *)

Lemma trace_bind {A B} (m : M A) (f : A -> M B) :
  trace_of (bind m f)
  = trace_of m ++ match outcome_of m with
                  | Ok a => trace_of (f a)
                  | Raise _ => []
                  end.
Proof.
  destruct m as [t [a | e]]; cbn.
  - destruct (f a); reflexivity.
  - now rewrite app_nil_r.
Qed.

Lemma outcome_bind {A B} (m : M A) (f : A -> M B) :
  outcome_of (bind m f)
  = match outcome_of m with
    | Ok a => outcome_of (f a)
    | Raise e => Raise e
    end.
Proof.
  destruct m as [t [a | e]]; cbn; [destruct (f a) |]; reflexivity.
Qed.

Lemma trace_logged {A} (msg : string) (m : M A) :
  trace_of (logged msg m)
  = trace_of m ++ match outcome_of m with
                  | Ok _ => []
                  | Raise _ => [Log ERROR msg]
                  end.
Proof. destruct m as [t [a | e]]; cbn; [now rewrite app_nil_r | reflexivity]. Qed.

Lemma outcome_logged {A} (msg : string) (m : M A) :
  outcome_of (logged msg m) = outcome_of m.
Proof. destruct m as [t [a | e]]; reflexivity. Qed.

Section Classes.

Variable P : event -> Prop.

Lemma class_bind {A B} (m : M A) (f : A -> M B) :
  Forall P (trace_of m) -> (forall a, Forall P (trace_of (f a))) ->
  Forall P (trace_of (bind m f)).
Proof.
  intros Hm Hf. rewrite trace_bind. apply Forall_app. split; [assumption |].
  destruct (outcome_of m); [apply Hf | constructor].
Qed.

Lemma class_logged {A} (msg : string) (m : M A) :
  P (Log ERROR msg) -> Forall P (trace_of m) ->
  Forall P (trace_of (logged msg m)).
Proof.
  intros Hl Hm. rewrite trace_logged. apply Forall_app. split; [assumption |].
  destruct (outcome_of m); repeat constructor; assumption.
Qed.

Lemma class_emit (ev : event) : P ev -> Forall P (trace_of (emit ev)).
Proof. intro H. repeat constructor. exact H. Qed.

Lemma class_ret {A} (a : A) : Forall P (trace_of (ret a)).
Proof. constructor. Qed.

Lemma class_raise {A} (e : exn) : Forall P (trace_of (@raise A e)).
Proof. constructor. Qed.

Lemma class_lift {A} (r : result A) : Forall P (trace_of (lift r)).
Proof. constructor. Qed.

Lemma class_hw (rig : Rig) (c : command) :
  P (Call c) -> P (Return c) -> Forall P (trace_of (hw rig c)).
Proof.
  intros Hc Hr. unfold hw. apply class_bind; [now apply class_emit |].
  intros _. destruct (fault_at rig c); [apply class_raise | now apply class_emit].
Qed.

Lemma class_for_each {A} (body : A -> M unit) (l : list A) :
  (forall a, Forall P (trace_of (body a))) ->
  Forall P (trace_of (for_each body l)).
Proof.
  intro Hb. induction l as [| a l IH]; cbn [for_each].
  - apply class_ret.
  - apply class_bind; auto.
Qed.

End Classes.

Ltac classify :=
  repeat first
    [ apply class_ret
    | apply class_raise
    | apply class_lift
    | apply class_emit; reflexivity
    | apply class_hw; reflexivity
    | apply class_logged; [reflexivity |]
    | apply class_for_each; intros
    | apply class_bind; [| intros]
    | match goal with
      | |- Forall _ (trace_of (match ?x with _ => _ end)) => destruct x
      end ].

Lemma configure_channels_events (rig : Rig) (p : AcqParams) :
  Forall (fun ev => setup_event ev = true)
         (trace_of (configure_channels rig p)).
Proof.
  unfold configure_channels, configure_channel, configure_from. classify.
Qed.

Lemma setup_cards_events (rig : Rig) (p : AcqParams) :
  Forall (fun ev => setup_event ev = true) (trace_of (setup_cards rig p)).
Proof.
  unfold setup_cards, setup_card, setup_timeout, transfer_window. classify.
Qed.

(** The three ways the synchronised start can go. *)
Lemma synchronized_start_cases (rig : Rig) :
  (exists e,
     synchronized_start rig
     = ([Call SyncEnable; Log ERROR "Error starting acquisition"], Raise e)) \/
  (exists e,
     synchronized_start rig
     = ([Call SyncEnable; Return SyncEnable; Call Start;
         Log ERROR "Error starting acquisition"], Raise e)) \/
  synchronized_start rig
  = ([Call SyncEnable; Return SyncEnable; Call Start; Return Start], Ok tt).
Proof.
  unfold synchronized_start, hw.
  destruct (fault_at rig SyncEnable) as [e |].
  - left. exists e. reflexivity.
  - destruct (fault_at rig Start) as [e |].
    + right. left. exists e. reflexivity.
    + right. right. reflexivity.
Qed.

(** *** Order of events *)

Lemma before_nil (a b : event) : before a b [].
Proof. intros [| x pre] post H; discriminate. Qed.

Lemma before_cons_other (a b x : event) (t : list event) :
  x <> b -> before a b t -> before a b (x :: t).
Proof.
  intros Hx Ht [| y pre] post H; cbn in H.
  - congruence.
  - injection H as -> H. right. eapply Ht. eassumption.
Qed.

Lemma before_cons_hit (a b : event) (t : list event) :
  a <> b -> before a b (a :: t).
Proof.
  intros Hab [| y pre] post H; cbn in H.
  - congruence.
  - injection H as -> H. left. reflexivity.
Qed.

Lemma before_app_absent (a b : event) (t1 t2 : list event) :
  ~ In b t1 -> before a b t2 -> before a b (t1 ++ t2).
Proof.
  intros Hn H2 pre post E.
  apply app_eq_app in E as [l [[E1 E2] | [E1 E2]]].
  - destruct l as [| x l]; cbn in E2.
    + (* [b] heads [t2], where something has to precede it *)
      destruct (H2 [] post (eq_sym E2)).
    + injection E2 as <- E2. exfalso. apply Hn.
      subst t1. apply in_or_app. right. left. reflexivity.
  - subst pre. apply in_or_app. right. eapply H2. eassumption.
Qed.

Lemma setup_prefix_before {A B} (a b : event) (m : M A) (f : A -> M B) :
  Forall (fun ev => setup_event ev = true) (trace_of m) ->
  setup_event b = false ->
  (forall x, before a b (trace_of (f x))) ->
  before a b (trace_of (bind m f)).
Proof.
  intros Hm Hb Hf. rewrite trace_bind. apply before_app_absent.
  - intro Hin. rewrite Forall_forall in Hm. apply Hm in Hin. congruence.
  - destruct (outcome_of m); [apply Hf | apply before_nil].
Qed.

(** C9.  In the events of every run, every issue of the start command
    comes after a return of the synchronisation enable, and every launch
    of a worker comes after a return of the start command. *)
Theorem start_after_sync_and_launch_after_start
    (rig : Rig) (sched : list nat) (p : AcqParams) :
  before (Return SyncEnable) (Call Start)
         (trace_of (run_acquisition rig sched p)) /\
  forall i, before (Return Start) (Launch i)
                   (trace_of (run_acquisition rig sched p)).
Proof.
  unfold run_acquisition. split; [| intro i].
  - apply setup_prefix_before;
      [apply configure_channels_events | reflexivity | intros _].
    apply setup_prefix_before;
      [apply setup_cards_events | reflexivity | intros _].
    rewrite trace_bind.
    destruct (synchronized_start_cases rig) as [[e E] | [[e E] | E]];
      rewrite E; cbn [trace_of outcome_of fst snd app];
      repeat first [ apply before_cons_hit; discriminate
                   | apply before_cons_other; [discriminate |]
                   | apply before_nil ].
  - apply setup_prefix_before;
      [apply configure_channels_events | reflexivity | intros _].
    apply setup_prefix_before;
      [apply setup_cards_events | reflexivity | intros _].
    rewrite trace_bind.
    destruct (synchronized_start_cases rig) as [[e E] | [[e E] | E]];
      rewrite E; cbn [trace_of outcome_of fst snd app];
      repeat first [ apply before_cons_hit; discriminate
                   | apply before_cons_other; [discriminate |]
                   | apply before_nil ].
Qed.

(** ** Fan-out and fan-in *)

Lemma CardThread_run_queued (t : CardThread) (q : list exn) :
  has_ex_queue t = true ->
  exists q',
    CardThread_run t q = (q', Returned) /\
    incl q q' /\
    forall e, card_obj t = DeviceFault e -> In e q'.
Proof.
  intro H. unfold CardThread_run. destruct (card_obj t) as [buf | e0].
  - exists q. repeat split; [apply incl_refl | discriminate].
  - rewrite H. exists (q ++ [e0]). repeat split.
    + apply incl_appl, incl_refl.
    + intros e [= <-]. apply in_or_app. right. left. reflexivity.
Qed.

Lemma pool_ok_incl (ts : list (CardThread * option thread_exit))
    (q q' : list exn) :
  incl q q' -> pool_ok ts q -> pool_ok ts q'.
Proof.
  intros Hi H. unfold pool_ok in *. eapply Forall_impl; [| exact H].
  intros [t st] [Hq Hx]. split; [exact Hq |].
  intros x Ex. destruct (Hx x Ex) as [-> He]. split; [reflexivity |].
  intros e Ee. apply Hi. now apply He.
Qed.

Lemma run_in_ok (i : nat) (ts : list (CardThread * option thread_exit)) :
  forall q ts' q' ev,
    run_in i ts q = (ts', q', ev) ->
    pool_ok ts q ->
    pool_ok ts' q' /\ incl q q' /\ map fst ts' = map fst ts /\
    Forall (fun e => pool_event e = true) ev.
Proof.
  induction ts as [| [t st] ts IH]; intros q ts' q' ev E Hok; cbn in E.
  - injection E as <- <- <-. repeat split; auto using incl_refl.
  - inversion Hok as [| ? ? [Hq Hx] Hrest]; subst. cbn in Hq, Hx.
    assert (Hskip : forall ts'' q'' ev'',
               run_in i ts q = (ts'', q'', ev'') ->
               pool_ok ((t, st) :: ts'') q'' /\ incl q q'' /\
               map fst ((t, st) :: ts'') = map fst ((t, st) :: ts) /\
               Forall (fun e => pool_event e = true) ev'').
    { intros ts'' q'' ev'' R.
      destruct (IH _ _ _ _ R Hrest) as (Hok' & Hi & Hm & Hev).
      split; [| split; [exact Hi | split; [cbn; now rewrite Hm | exact Hev]]].
      constructor; [| exact Hok']. split; [exact Hq |].
      intros y Ey. destruct (Hx y Ey) as [-> He]. split; [reflexivity |].
      intros e Ee. apply Hi. now apply He. }
    destruct st as [x |].
    + destruct (run_in i ts q) as [[ts'' q''] ev''] eqn:R.
      injection E as <- <- <-. now apply Hskip.
    + destruct (Nat.eqb (card_index t) i).
      * destruct (CardThread_run_queued t q Hq) as (q1 & R & Hi & He).
        rewrite R in E. injection E as <- <- <-.
        split; [| split; [exact Hi | split; [reflexivity |]]].
        -- constructor.
           ++ split; [exact Hq |]. intros y [= <-]. split; auto.
           ++ eapply pool_ok_incl; eassumption.
        -- repeat constructor.
      * destruct (run_in i ts q) as [[ts'' q''] ev''] eqn:R.
        injection E as <- <- <-. now apply Hskip.
Qed.

Lemma run_schedule_ok (sched : list nat) :
  forall pl pl' ev,
    run_schedule sched pl = (pl', ev) ->
    pool_ok (pool_threads pl) (exc_queue pl) ->
    pool_ok (pool_threads pl') (exc_queue pl') /\
    map fst (pool_threads pl') = map fst (pool_threads pl) /\
    Forall (fun e => pool_event e = true) ev.
Proof.
  induction sched as [| i sched IH]; intros pl pl' ev E Hok; cbn in E.
  - injection E as <- <-. auto.
  - unfold run_worker in E.
    destruct (run_in i (pool_threads pl) (exc_queue pl))
      as [[ts1 q1] ev1] eqn:R.
    destruct (run_schedule sched (mkPool ts1 q1)) as [pl2 ev2] eqn:S.
    injection E as <- <-.
    destruct (run_in_ok _ _ _ _ _ _ R Hok) as (Hok1 & _ & Hm1 & Hev1).
    destruct (IH _ _ _ S Hok1) as (Hok2 & Hm2 & Hev2).
    split; [exact Hok2 |]. split; [cbn in Hm2; congruence |].
    apply Forall_app. auto.
Qed.

Lemma join_all_ok (ts : list (CardThread * option thread_exit)) :
  forall q ts' q' ev,
    join_all ts q = (ts', q', ev) ->
    pool_ok ts q ->
    pool_ok ts' q' /\ incl q q' /\ map fst ts' = map fst ts /\
    Forall (fun e => pool_event e = true) ev /\
    Forall (fun ts => snd ts = Some Returned) ts' /\
    forall t, In t (map fst ts) -> In (Join (card_index t)) ev.
Proof.
  induction ts as [| [t st] ts IH]; intros q ts' q' ev E Hok; cbn in E.
  - injection E as <- <- <-.
    split; [constructor |]. split; [apply incl_refl |].
    split; [reflexivity |]. split; [constructor |].
    split; [constructor | intros t []].
  - inversion Hok as [| ? ? [Hq Hx] Hrest]; subst. cbn in Hq, Hx.
    assert (Hhead : exists q1 ev1,
               match st with
               | Some x => (x, q, [])
               | None => let '(q', x) := CardThread_run t q in
                         (x, q', [WorkerExit (card_index t) x])
               end = (Returned, q1, ev1) /\
               incl q q1 /\
               (forall e, card_obj t = DeviceFault e -> In e q1) /\
               Forall (fun e => pool_event e = true) ev1).
    { destruct st as [x |].
      - destruct (Hx x eq_refl) as [-> He].
        exists q, [].
        split; [reflexivity |]. split; [apply incl_refl |].
        split; [exact He | constructor].
      - destruct (CardThread_run_queued t q Hq) as (q1 & R & Hi & He).
        rewrite R. exists q1, [WorkerExit (card_index t) Returned].
        split; [reflexivity |]. split; [exact Hi |].
        split; [exact He | repeat constructor]. }
    destruct Hhead as (q1 & ev1 & Eh & Hi1 & He1 & Hev1).
    rewrite Eh in E.
    destruct (join_all ts q1) as [[ts2 q2] ev2] eqn:J.
    injection E as <- <- <-.
    destruct (IH _ _ _ _ J (pool_ok_incl _ _ _ Hi1 Hrest))
      as (Hok2 & Hi2 & Hm2 & Hev2 & Hfin2 & Hj2).
    split; [| split; [| split; [| split; [| split]]]].
    + constructor; [| exact Hok2]. split; [exact Hq |].
      intros y [= <-]. split; [reflexivity |].
      intros e Ee. apply Hi2. now apply He1.
    + eapply incl_tran; eassumption.
    + cbn. now rewrite Hm2.
    + apply Forall_app. split; [exact Hev1 |]. constructor; [reflexivity | exact Hev2].
    + constructor; [reflexivity | exact Hfin2].
    + intros t' [<- | Hin]; apply in_or_app; right.
      * left. reflexivity.
      * right. now apply Hj2.
Qed.

Lemma enumerate_from_In {A} (l : list A) :
  forall k i, (i < length l)%nat ->
              exists a, In ((k + i)%nat, a) (enumerate_from k l).
Proof.
  induction l as [| a l IH]; intros k i Hi; cbn in *; [lia |].
  destruct i as [| i].
  - exists a. left. f_equal. lia.
  - destruct (IH (S k) i ltac:(lia)) as [b Hb].
    exists b. right. replace (k + S i)%nat with (S k + i)%nat by lia. exact Hb.
Qed.

Lemma threads_of_In (rig : Rig) (i : nat) :
  (i < length (stack_cards rig))%nat ->
  In (mkCardThread i (wait_dma rig i) true) (threads_of rig).
Proof.
  intro Hi. destruct (enumerate_from_In (stack_cards rig) 0 i Hi) as [a Ha].
  unfold threads_of. apply in_map_iff. exists (i, a). split; [reflexivity | exact Ha].
Qed.

(** What the pool looks like once every thread has been joined. *)
Lemma fan_out_fan_in_ok (rig : Rig) (sched : list nat) (pl : Pool)
    (ev : list event) :
  fan_out_fan_in rig sched = (pl, ev) ->
  pool_ok (pool_threads pl) (exc_queue pl) /\
  map fst (pool_threads pl) = threads_of rig /\
  Forall (fun ts => snd ts = Some Returned) (pool_threads pl) /\
  Forall (fun e => pool_event e = true) ev /\
  forall t, In t (threads_of rig) -> In (Join (card_index t)) ev.
Proof.
  unfold fan_out_fan_in. intro E.
  set (launched := mkPool (map (fun t => (t, None)) (threads_of rig)) []) in E.
  assert (H0 : pool_ok (pool_threads launched) (exc_queue launched)).
  { unfold launched, pool_ok. cbn. apply Forall_forall.
    intros [t st] Hin. apply in_map_iff in Hin as [t' [[= <- <-] Hin]].
    split; [| discriminate].
    unfold threads_of in Hin. apply in_map_iff in Hin as [c [<- _]].
    reflexivity. }
  destruct (run_schedule sched launched) as [pl1 ev1] eqn:S.
  destruct (join_all (pool_threads pl1) (exc_queue pl1))
    as [[ts2 q2] ev2] eqn:J.
  injection E as <- <-.
  destruct (run_schedule_ok _ _ _ _ S H0) as (Hok1 & Hm1 & Hev1).
  destruct (join_all_ok _ _ _ _ _ J Hok1)
    as (Hok2 & _ & Hm2 & Hev2 & Hfin & Hj).
  assert (Hm : map fst (pool_threads pl1) = threads_of rig).
  { rewrite Hm1. unfold launched. cbn. rewrite map_map. cbn. apply map_id. }
  cbn. split; [exact Hok2 |]. split; [congruence |]. split; [exact Hfin |].
  split.
  - apply Forall_app. split.
    + apply Forall_forall. intros e He.
      apply in_map_iff in He as [i [<- _]]. reflexivity.
    + apply Forall_app. auto.
  - intros t Ht. apply in_or_app. right. apply in_or_app. right.
    apply Hj. now rewrite Hm.
Qed.

Lemma for_each_emit {A} (ev : event) (l : list A) :
  for_each (fun _ => emit ev) l = (map (fun _ => ev) l, Ok tt).
Proof.
  induction l as [| a l IH]; cbn [for_each map]; [reflexivity |].
  rewrite IH. reflexivity.
Qed.

Lemma setup_event_not_assembly (ev : event) :
  setup_event ev = true -> assembly_event ev = false.
Proof. destruct ev as [c | c | | | | |]; try destruct c; cbn; congruence. Qed.

Lemma pool_event_not_assembly (ev : event) :
  pool_event ev = true -> assembly_event ev = false.
Proof. destruct ev as [c | c | | | | |]; try destruct c; cbn; congruence. Qed.

(** A run whose acquisition ends as [t] with a failure and no assembly
    has no event of assembly at all. *)
Lemma faulted_run_never_assembles (rig : Rig) (sched : list nat)
    (p : AcqParams) (r : M unit) :
  acquire rig sched p = r ->
  Forall (fun ev => assembly_event ev = false) (trace_of r) ->
  forall ev, In ev (trace_of (run_acquisition rig sched p)) ->
             assembly_event ev = false.
Proof.
  intros Hacq Hr. apply Forall_forall.
  unfold run_acquisition.
  apply class_bind; [| intros _; apply class_bind; [| intros _;
    apply class_bind; [| intros _]]].
  - eapply Forall_impl; [| apply configure_channels_events].
    apply setup_event_not_assembly.
  - eapply Forall_impl; [| apply setup_cards_events].
    apply setup_event_not_assembly.
  - unfold synchronized_start. classify.
  - rewrite Hacq. exact Hr.
Qed.

(** C8.  When the wait of some card faults, every worker still returns
    and its fault is in the queue once all are joined; the coordinator
    logs the queued faults after the last join and raises one
    [RuntimeError]; nothing is assembled or saved. *)
Theorem worker_fault_aggregated (rig : Rig) (sched : list nat)
    (p : AcqParams) (i : nat) (e : exn) (pl : Pool) (ev : list event) :
  (i < length (stack_cards rig))%nat ->
  wait_dma rig i = DeviceFault e ->
  fan_out_fan_in rig sched = (pl, ev) ->
  (forall j x, In (WorkerExit j x) ev -> x = Returned) /\
  (forall t st, In (t, st) (pool_threads pl) -> st = Some Returned) /\
  (forall j, (j < length (stack_cards rig))%nat -> In (Join j) ev) /\
  In e (exc_queue pl) /\
  acquire rig sched p
  = (ev ++ map (fun _ => Log ERROR caught_msg) (exc_queue pl)
        ++ [Log ERROR encountered_msg],
     Raise (RuntimeError thread_failure_msg)) /\
  (outcome_of (configure_channels rig p ;;; setup_cards rig p ;;;
               synchronized_start rig) = Ok tt ->
   outcome_of (run_acquisition rig sched p)
   = Raise (RuntimeError thread_failure_msg)) /\
  ~ In Assemble (trace_of (run_acquisition rig sched p)) /\
  forall data, ~ In (Call (SaveToFile data))
                    (trace_of (run_acquisition rig sched p)).
Proof.
  intros Hi Hw E.
  destruct (fan_out_fan_in_ok _ _ _ _ E) as (Hok & Hm & Hfin & Hev & Hj).
  assert (Hexit : forall j x, In (WorkerExit j x) ev -> x = Returned).
  { intros j x Hin. rewrite Forall_forall in Hev. apply Hev in Hin.
    destruct x; [reflexivity | discriminate]. }
  assert (Hst : forall t st, In (t, st) (pool_threads pl) -> st = Some Returned).
  { intros t st Hin. rewrite Forall_forall in Hfin. exact (Hfin _ Hin). }
  assert (Hjoin : forall j, (j < length (stack_cards rig))%nat -> In (Join j) ev).
  { intros j Hjl. exact (Hj _ (threads_of_In rig j Hjl)). }
  assert (Hq : In e (exc_queue pl)).
  { pose proof (threads_of_In rig i Hi) as Hin. rewrite <- Hm in Hin.
    apply in_map_iff in Hin as [[t st] [Et Hin]]. cbn in Et. subst t.
    unfold pool_ok in Hok. rewrite Forall_forall in Hok.
    destruct (Hok _ Hin) as [_ Hx]. cbn in Hx.
    destruct (Hx Returned (Hst _ _ Hin)) as [_ He].
    apply He. cbn. exact Hw. }
  assert (Hacq : acquire rig sched p
                 = (ev ++ map (fun _ => Log ERROR caught_msg) (exc_queue pl)
                       ++ [Log ERROR encountered_msg],
                    Raise (RuntimeError thread_failure_msg))).
  { unfold acquire. rewrite E. unfold check_queue.
    destruct (exc_queue pl) as [| e0 q] eqn:Eq; [destruct Hq |].
    rewrite for_each_emit. cbn. rewrite app_nil_r, <- app_assoc. reflexivity. }
  assert (Hnone : Forall (fun ev => assembly_event ev = false)
                         (ev ++ map (fun _ => Log ERROR caught_msg) (exc_queue pl)
                             ++ [Log ERROR encountered_msg])).
  { apply Forall_app. split.
    - eapply Forall_impl; [| exact Hev]. apply pool_event_not_assembly.
    - apply Forall_app. split; [| repeat constructor].
      apply Forall_forall. intros x Hx.
      apply in_map_iff in Hx as [y [<- _]]. reflexivity. }
  split; [exact Hexit |]. split; [exact Hst |]. split; [exact Hjoin |].
  split; [exact Hq |]. split; [exact Hacq |]. split; [| split].
  - intro Hpre. unfold run_acquisition.
    rewrite !outcome_bind in *.
    destruct (outcome_of (configure_channels rig p)); [| discriminate].
    destruct (outcome_of (setup_cards rig p)); [| discriminate].
    destruct (outcome_of (synchronized_start rig)); [| discriminate].
    rewrite Hacq. reflexivity.
  - intro Hin. apply (faulted_run_never_assembles rig sched p _ Hacq Hnone) in Hin.
    discriminate.
  - intros data Hin.
    apply (faulted_run_never_assembles rig sched p _ Hacq Hnone) in Hin.
    discriminate.
Qed.

(** ** Dissimilarity detector *)

Import Detector.

Lemma index_lt (n : nat) (k : Z) (j : nat) :
  index n k = Some j -> (j < n)%nat.
Proof.
  unfold index.
  destruct (Z.leb_spec 0 k); destruct (Z.ltb_spec k (Z.of_nat n)); cbn;
    try (intros [= <-]; lia);
    destruct (Z.leb_spec (- Z.of_nat n) k); destruct (Z.ltb_spec k 0); cbn;
    try discriminate; intros [= <-]; lia.
Qed.

Section SetItem.

Variables (v : list Z) (x : Z) (j : nat).
Hypothesis Hj : (j < length v)%nat.

Lemma set_length :
  length (firstn j v ++ x :: skipn (S j) v) = length v.
Proof.
  rewrite length_app, length_firstn. cbn [length].
  rewrite length_skipn. lia.
Qed.

Lemma set_same :
  nth_error (firstn j v ++ x :: skipn (S j) v) j = Some x.
Proof.
  rewrite nth_error_app2; rewrite length_firstn.
  - replace (j - Nat.min j (length v))%nat with 0%nat by lia. reflexivity.
  - lia.
Qed.

Lemma set_other (i : nat) :
  i <> j ->
  nth_error (firstn j v ++ x :: skipn (S j) v) i = nth_error v i.
Proof.
  intro Hi.
  destruct (Nat.lt_ge_cases i j) as [L | G].
  - rewrite nth_error_app1 by (rewrite length_firstn; lia).
    rewrite nth_error_firstn.
    destruct (Nat.ltb_spec i j); [reflexivity | lia].
  - rewrite nth_error_app2 by (rewrite length_firstn; lia).
    rewrite length_firstn.
    replace (i - Nat.min j (length v))%nat with (S (i - S j)) by lia.
    cbn [nth_error]. rewrite nth_error_skipn. f_equal. lia.
Qed.

Lemma set_item_ok (k : Z) :
  index (length v) k = Some j ->
  set_item v k x = Ok (firstn j v ++ x :: skipn (S j) v).
Proof. intro E. unfold set_item. rewrite E. reflexivity. Qed.

End SetItem.

Lemma dists_length (X : list (list float)) :
  X <> [] -> length (dists X) = length X.
Proof.
  intro H. unfold dists. destruct X as [| r X]; [congruence |].
  cbn [length]. rewrite length_map, length_seq. reflexivity.
Qed.

Lemma outlier_scores_length (data : ndarray) (threshold : Q) :
  ncols data <> 0%nat ->
  length (outlier_scores data threshold) = ncols data.
Proof.
  intro H. unfold outlier_scores, zscore. rewrite !length_map.
  rewrite dists_length.
  - unfold channels_of. now rewrite !length_map, length_seq.
  - unfold channels_of. destruct (ncols data); [congruence | discriminate].
Qed.

(** The two writes of the detector. *)
Lemma detect_flags (data : ndarray) (p : AcqParams) (t m : nat) :
  index (ncols data) (trigger_channel_no p) = Some t ->
  index (ncols data) (emission_on_channel_no p) = Some m ->
  exists flags,
    detect_dissimilar_channels data p = Ok flags /\
    length flags = ncols data /\
    nth_error flags t = Some (-1) /\
    nth_error flags m = Some (-1) /\
    forall i, i <> t -> i <> m ->
      nth_error flags i
      = nth_error (outlier_scores data (sensitivity_threshold p)) i.
Proof.
  intros Et Em.
  pose proof (index_lt _ _ _ Et) as Lt.
  pose proof (index_lt _ _ _ Em) as Lm.
  assert (Hn : ncols data <> 0%nat) by lia.
  pose proof (outlier_scores_length data (sensitivity_threshold p) Hn) as Hl.
  set (o := outlier_scores data (sensitivity_threshold p)) in *.
  set (o1 := firstn t o ++ -1 :: skipn (S t) o).
  assert (Hl1 : length o1 = length o) by (apply set_length; lia).
  exists (firstn m o1 ++ -1 :: skipn (S m) o1).
  split; [| split; [| split; [| split]]].
  - unfold detect_dissimilar_channels. fold o.
    rewrite (set_item_ok o (-1) t) by (rewrite Hl; exact Et).
    fold o1. apply set_item_ok. rewrite Hl1, Hl. exact Em.
  - rewrite set_length; lia.
  - destruct (Nat.eq_dec t m) as [-> | Ne].
    + apply set_same. lia.
    + rewrite set_other by (lia || assumption). apply set_same. lia.
  - apply set_same. lia.
  - intros i Ht Hm. rewrite set_other by (lia || assumption).
    apply set_other; lia || assumption.
Qed.

(** C5.  With both indices in range, the detector returns one flag per
    channel, and the flags of the trigger and of the emission channel are
    -1 (excluded), whatever the data: they are not 1 (dissimilar). *)
Theorem excluded_channels_flagged (data : ndarray) (p : AcqParams)
    (t m : nat) :
  index (ncols data) (trigger_channel_no p) = Some t ->
  index (ncols data) (emission_on_channel_no p) = Some m ->
  exists flags,
    detect_dissimilar_channels data p = Ok flags /\
    length flags = ncols data /\
    nth_error flags t = Some (-1) /\
    nth_error flags m = Some (-1) /\
    nth_error flags t <> Some 1 /\
    nth_error flags m <> Some 1.
Proof.
  intros Et Em.
  destruct (detect_flags data p t m Et Em) as (flags & E & L & Ht & Hm & _).
  exists flags. rewrite Ht, Hm. repeat split; congruence.
Qed.

Lemma excluded_channels_flagged_witness :
  exists flags,
    detect_dissimilar_channels pulse_data pulse_params = Ok flags /\
    length flags = 4%nat /\
    nth_error flags 0 = Some (-1) /\
    nth_error flags 1 = Some (-1) /\
    nth_error flags 0 <> Some 1 /\
    nth_error flags 1 <> Some 1.
Proof.
  apply (excluded_channels_flagged pulse_data pulse_params 0 1); reflexivity.
Defined.

Section ConstantScores.

Local Open Scope R_scope.

Lemma fadd_zero_l (a : float) : fadd (Some 0) a = a.
Proof. destruct a as [x |]; cbn; [f_equal; ring | reflexivity]. Qed.

Lemma fsum_skip_zero (l1 l2 : list float) :
  fsum (l1 ++ Some 0 :: l2) = fsum (l1 ++ l2).
Proof.
  induction l1 as [| a l1 IH]; cbn [app fsum].
  - apply fadd_zero_l.
  - now rewrite IH.
Qed.

Lemma fsum_repeat_some (x : R) (n : nat) :
  fsum (repeat (Some x) n) = Some (INR n * x).
Proof.
  induction n as [| n IH]; cbn [repeat fsum].
  - f_equal. cbn. ring.
  - rewrite IH. cbn [fadd lift2]. f_equal. rewrite S_INR. ring.
Qed.

Lemma fdiv_zero (a : float) : fdiv a (Some 0) = nan.
Proof.
  destruct a as [x |]; cbn; [| reflexivity].
  destruct (Req_dec_T 0 0) as [_ | N]; [reflexivity | now destruct N].
Qed.

Lemma fdiv_nan_r (a : float) : fdiv a nan = nan.
Proof. destruct a; reflexivity. Qed.

Lemma mean_repeat_some (x : R) (n : nat) :
  n <> 0%nat -> mean (repeat (Some x) n) = Some x.
Proof.
  intro Hn. unfold mean. rewrite fsum_repeat_some, repeat_length. cbn.
  assert (Hne : INR n <> 0) by (apply not_0_INR; exact Hn).
  destruct (Req_dec_T (INR n) 0) as [E | _]; [contradiction |].
  f_equal. field. exact Hne.
Qed.

Lemma map_repeat {A B} (f : A -> B) (a : A) (n : nat) :
  map f (repeat a n) = repeat (f a) n.
Proof. induction n as [| n IH]; cbn; [reflexivity | now rewrite IH]. Qed.

(** The standard deviation of a constant vector is zero, or NaN. *)
Lemma std_repeat (a : float) (n : nat) :
  std (repeat a n) = Some 0 \/ std (repeat a n) = nan.
Proof.
  destruct n as [| n].
  - right. unfold std, mean. cbn.
    destruct (Req_dec_T 0 0) as [_ | N]; [reflexivity | now destruct N].
  - destruct a as [x |].
    + left. unfold std. rewrite mean_repeat_some by discriminate.
      rewrite map_repeat. cbn [fsub fmul lift2].
      replace ((x - x) * (x - x)) with 0 by ring.
      rewrite mean_repeat_some by discriminate.
      cbn. now rewrite sqrt_0.
    + right. reflexivity.
Qed.

(** The z-scores of a constant vector are all NaN. *)
Lemma zscore_repeat (a : float) (n : nat) :
  zscore (repeat a n) = repeat nan n.
Proof.
  unfold zscore. rewrite map_repeat. f_equal.
  destruct (std_repeat a n) as [-> | ->];
    [apply fdiv_zero | apply fdiv_nan_r].
Qed.

Lemma map_constant {A B} (f : A -> B) (c : B) (l : list A) :
  (forall a, In a l -> f a = c) -> map f l = repeat c (length l).
Proof.
  induction l as [| a l IH]; intro H; cbn; [reflexivity |].
  rewrite (H a) by now left. f_equal. apply IH. intros b Hb. apply H. now right.
Qed.

(** A row of the distance matrix of identical observations: the same
    distance everywhere but on the diagonal. *)
Lemma row_shape (D : float) (i n a : nat) :
  (a <= i < a + n)%nat ->
  map (fun j => if Nat.eqb i j then Some 0 else D) (seq a n)
  = repeat D (i - a) ++ Some 0 :: repeat D (a + n - 1 - i).
Proof.
  intro H.
  assert (E : seq a n = seq a (i - a) ++ i :: seq (S i) (a + n - 1 - i)).
  { replace n with ((i - a) + S (a + n - 1 - i))%nat at 1 by lia.
    rewrite seq_app. replace (a + (i - a))%nat with i by lia. reflexivity. }
  rewrite E, map_app. cbn [map]. rewrite Nat.eqb_refl.
  apply (f_equal2 (@app float)); [| apply f_equal].
  - rewrite (map_constant _ D); [now rewrite length_seq |].
    intros j Hj. apply in_seq in Hj.
    destruct (Nat.eqb_spec i j); [lia | reflexivity].
  - rewrite (map_constant _ D); [now rewrite length_seq |].
    intros j Hj. apply in_seq in Hj.
    destruct (Nat.eqb_spec i j); [lia | reflexivity].
Qed.

Lemma row_mean (D : float) (n i : nat) :
  (i < n)%nat ->
  mean (map (fun j => if Nat.eqb i j then Some 0 else D) (seq 0 n))
  = fdiv (fsum (repeat D (n - 1))) (Some (INR n)).
Proof.
  intro H. unfold mean. rewrite length_map, length_seq.
  rewrite (row_shape D i n 0) by lia.
  rewrite fsum_skip_zero, <- repeat_app. do 3 f_equal. lia.
Qed.

(** The distance matrix of [n] identical observations has constant row
    means. *)
Lemma avg_dists_identical (z : list float) (n : nat) :
  exists A, map mean (dists (repeat z n)) = repeat A (Nat.max n 1).
Proof.
  destruct n as [| n].
  - exists (mean [Some 0]). reflexivity.
  - exists (fdiv (fsum (repeat (cosine z z) (S n - 1))) (Some (INR (S n)))).
    unfold dists. rewrite repeat_length.
    replace (Nat.max (S n) 1) with (S n) by lia.
    rewrite map_map.
    rewrite (map_constant _
               (fdiv (fsum (repeat (cosine z z) (S n - 1))) (Some (INR (S n)))));
      [now rewrite length_seq |].
    intros i Hi. apply in_seq in Hi.
    rewrite <- (row_mean (cosine z z) (S n) i) by lia.
    f_equal. apply map_ext_in. intros j Hj. apply in_seq in Hj.
    destruct (Nat.eqb i j); [reflexivity |].
    rewrite !nth_repeat_lt by lia. reflexivity.
Qed.

End ConstantScores.

Lemma same_waveform_of_Q (c c' : list Q) :
  same_waveform c c' = true -> map of_Q c = map of_Q c'.
Proof.
  revert c'. induction c as [| x c IH]; intros [| y c'] H; cbn in H;
    try discriminate; [reflexivity |].
  apply andb_prop in H as [Hx Hc]. cbn [map]. f_equal.
  - unfold of_Q. f_equal. apply Qeq_eqR. now apply Qeq_bool_eq.
  - now apply IH.
Qed.

(** Identical channels give identical normalised observations. *)
Lemma data_norm_identical (data : ndarray) :
  identical_channels data = true ->
  exists z,
    map (fun ch => zscore (map of_Q ch)) (channels_of data)
    = repeat z (ncols data).
Proof.
  intro H. unfold identical_channels in H. rewrite forallb_forall in H.
  assert (L : length (channels_of data) = ncols data).
  { unfold channels_of. now rewrite length_map, length_seq. }
  destruct (channels_of data) as [| c0 cs] eqn:E.
  - exists []. cbn in L. rewrite <- L. reflexivity.
  - exists (zscore (map of_Q c0)). rewrite <- L. apply map_constant.
    intros c Hc. f_equal. apply same_waveform_of_Q.
    specialize (H c Hc). rewrite forallb_forall in H. apply H. now left.
Qed.

(** For identical channels the scores flag nobody. *)
Lemma outlier_scores_identical (data : ndarray) (threshold : Q) :
  identical_channels data = true ->
  outlier_scores data threshold = repeat 0 (Nat.max (ncols data) 1).
Proof.
  intro H. unfold outlier_scores.
  destruct (data_norm_identical data H) as [z ->].
  destruct (avg_dists_identical z (ncols data)) as [A ->].
  rewrite zscore_repeat, map_repeat. reflexivity.
Qed.

(** In exact arithmetic identical channels are not flagged: when all
    channels carry the same waveform (and both indices are in range), the
    scores are [0 / 0] and the flags are -1 for the trigger and the
    emission channel and 0 for every other channel. *)
Lemma identical_channels_not_dissimilar (data : ndarray) (p : AcqParams)
    (t m : nat) :
  identical_channels data = true ->
  index (ncols data) (trigger_channel_no p) = Some t ->
  index (ncols data) (emission_on_channel_no p) = Some m ->
  exists flags,
    detect_dissimilar_channels data p = Ok flags /\
    length flags = ncols data /\
    forall i f, nth_error flags i = Some f ->
      (f = -1 /\ (i = t \/ i = m)) \/ (f = 0 /\ i <> t /\ i <> m).
Proof.
  intros Hid Et Em.
  destruct (detect_flags data p t m Et Em)
    as (flags & E & L & Ht & Hm & Hother).
  exists flags. split; [exact E |]. split; [exact L |].
  intros i f Hf.
  destruct (Nat.eq_dec i t) as [-> | Nt].
  { left. split; [congruence | now left]. }
  destruct (Nat.eq_dec i m) as [-> | Nm].
  { left. split; [congruence | now right]. }
  right. split; [| split; assumption].
  rewrite (Hother i Nt Nm), (outlier_scores_identical data _ Hid) in Hf.
  apply nth_error_In, repeat_spec in Hf. exact Hf.
Qed.

Lemma identical_channels_not_dissimilar_witness :
  exists flags,
    detect_dissimilar_channels twin_data pulse_params = Ok flags /\
    length flags = 3%nat /\
    forall i f, nth_error flags i = Some f ->
      (f = -1 /\ (i = 0%nat \/ i = 1%nat)) \/
      (f = 0 /\ i <> 0%nat /\ i <> 1%nat).
Proof.
  apply (identical_channels_not_dissimilar twin_data pulse_params 0 1);
    reflexivity.
Defined.

(** C6.  In binary64 identical channels are flagged.  Eighteen channels
    carry the same waveform; their normalised observations are equal, yet
    the cosine distance of two of them is [2^-52] and not 0, the mean of
    the eighteen equal averages differs from them in the last place, and
    the scores are quotients of this rounding error by itself.  Every
    channel other than the trigger and the emission channel is flagged
    dissimilar. *)
Theorem identical_channels_flagged :
  identical_channels identical18 = true /\
  Detector64.detect_dissimilar_channels identical18 half_params
  = Ok (-1 :: -1 :: repeat 1 16).
Proof. split; vm_compute; reflexivity. Qed.

(** *** Two runs *)

(** A run without faults: the synchronised start, then the launches, and
    the matrix is handed on. *)
Example healthy_run :
  outcome_of (run_acquisition healthy_rig [1; 0]%nat pulse_params) = Ok tt /\
  filter (fun ev => sync_event ev || pool_event ev)
         (trace_of (run_acquisition healthy_rig [1; 0]%nat pulse_params))
  = [Call SyncEnable; Return SyncEnable; Call Start; Return Start;
     Launch 0; Launch 1; WorkerExit 1 Returned; WorkerExit 0 Returned;
     Join 0; Join 1].
Proof. split; vm_compute; reflexivity. Qed.

Lemma worker_fault_aggregated_witness :
  outcome_of (run_acquisition faulty_rig [1; 0]%nat pulse_params)
  = Raise (RuntimeError thread_failure_msg) /\
  ~ In Assemble (trace_of (run_acquisition faulty_rig [1; 0]%nat pulse_params)).
Proof.
  destruct (worker_fault_aggregated faulty_rig [1; 0]%nat pulse_params 1
              (DriverError 263)
              (fst (fan_out_fan_in faulty_rig [1; 0]%nat))
              (snd (fan_out_fan_in faulty_rig [1; 0]%nat)))
    as (_ & _ & _ & _ & _ & Hrun & Hasm & _).
  - cbn. lia.
  - reflexivity.
  - reflexivity.
  - split; [apply Hrun; reflexivity | exact Hasm].
Defined.

(** ** Configuration loader *)

Import Config.

Lemma dict_get_set_same (key : string) (v : pyval) (d : dict) :
  dict_get key (dict_set key v d) = Some v.
Proof.
  induction d as [| [k w] d IH]; cbn.
  - now rewrite String.eqb_refl.
  - destruct (String.eqb_spec k key) as [-> | Ne]; cbn.
    + now rewrite String.eqb_refl.
    + destruct (String.eqb_spec k key); [contradiction | exact IH].
Qed.

Lemma dict_get_set_other (key k : string) (v : pyval) (d : dict) :
  k <> key -> dict_get key (dict_set k v d) = dict_get key d.
Proof.
  intro Ne. induction d as [| [k' w] d IH]; cbn.
  - destruct (String.eqb_spec k key); [contradiction | reflexivity].
  - destruct (String.eqb_spec k' k) as [-> | Ne']; cbn.
    + destruct (String.eqb_spec k key); [contradiction | reflexivity].
    + destruct (String.eqb_spec k' key); [reflexivity | exact IH].
Qed.

Lemma dict_mem_set (key k : string) (v : pyval) (d : dict) :
  dict_mem key d = true -> dict_mem key (dict_set k v d) = true.
Proof.
  unfold dict_mem. intro H.
  destruct (String.eqb_spec k key) as [-> | Ne].
  - now rewrite dict_get_set_same.
  - now rewrite dict_get_set_other.
Qed.

Section LoaderFacts.

Variable from_dict : json -> result SensorParams.
Variable pick : nat -> nat.

(** After the merge, [cur_version] is what the file supplies, or else what
    it was. *)
Lemma merge_version (items : list (string * json)) :
  forall params params',
    dict_mem "cur_version" params = true ->
    merge from_dict items params = Ok params' ->
    dict_get "cur_version" params'
    = match supplied "cur_version" items with
      | Some v => Some (PJson v)
      | None => dict_get "cur_version" params
      end.
Proof.
  induction items as [| [k v] items IH]; intros params params' Hm E;
    cbn [merge supplied] in *.
  - now injection E as <-.
  - destruct (dict_mem k params) eqn:Mk.
    + destruct (is_sensors_key k) eqn:Sk.
      * assert (Ne : k <> "cur_version"%string)
          by (intros ->; discriminate Sk).
        destruct (iterate v) as [entries | e]; [| discriminate].
        destruct (map_result from_dict entries) as [sensors | e];
          [| discriminate].
        rewrite (IH _ _ (dict_mem_set _ _ _ _ Hm) E).
        rewrite dict_get_set_other by exact Ne.
        destruct (String.eqb_spec k "cur_version"); [contradiction |].
        destruct (supplied "cur_version" items); reflexivity.
      * rewrite (IH _ _ (dict_mem_set _ _ _ _ Hm) E).
        destruct (String.eqb_spec k "cur_version") as [-> | Ne].
        -- rewrite dict_get_set_same.
           destruct (supplied "cur_version" items); reflexivity.
        -- rewrite dict_get_set_other by exact Ne.
           destruct (supplied "cur_version" items); reflexivity.
    + assert (Ne : k <> "cur_version"%string) by (intros ->; congruence).
      rewrite (IH _ _ Hm E).
      destruct (String.eqb_spec k "cur_version"); [contradiction |].
      destruct (supplied "cur_version" items); reflexivity.
Qed.

(** A version that is neither at least 2 nor NaN does not pass the
    gate. *)
Lemma finish_outdated (params : dict) (v : json) :
  dict_get "cur_version" params = Some (PJson v) ->
  at_least_2 v = false ->
  v <> JNaN ->
  exists e, finish pick params = Raise e.
Proof.
  intros G H N. unfold finish. rewrite G.
  destruct v as [| b | z | q | | negative | s | l | items]; cbn in *.
  - now exists TypeError.
  - now exists (ValueError outdated_msg).
  - destruct (Z.leb_spec 2 z); [discriminate |].
    destruct (Z.ltb_spec z 2); [| lia]. now exists (ValueError outdated_msg).
  - rewrite H. now exists (ValueError outdated_msg).
  - now contradiction N.
  - destruct negative; [| discriminate].
    now exists (ValueError outdated_msg).
  - now exists TypeError.
  - now exists TypeError.
  - now exists TypeError.
Qed.

(** Without a configuration file the defaults are outdated. *)
Lemma parse_args_default_outdated :
  parse_args from_dict pick NoConfigFile = Raise (ValueError outdated_msg).
Proof. reflexivity. Qed.

(** Unless the invocation loads a file whose [cur_version] is a number of
    at least 2 or NaN, [parse_args] raises and returns no parameters; this
    includes the invocation without a configuration file. *)
Lemma parse_args_rejects_other_versions (inv : invocation) :
  supplies_version_2 inv = false ->
  supplies_nan_version inv = false ->
  exists e, parse_args from_dict pick inv = Raise e.
Proof.
  intros H N. destruct inv as [| | [j | e]]; cbn [parse_args].
  - now exists SystemExit.
  - now exists (ValueError outdated_msg).
  - destruct j as [| b | z | q | | negative | s | l | items];
      try (now exists AttributeError).
    cbn in H, N.
    destruct (merge from_dict items default_params) as [params | e] eqn:M;
      [| now exists e].
    destruct (log_params params) as [[] | e]; [| now exists e].
    assert (G := merge_version items default_params params eq_refl M).
    destruct (supplied "cur_version" items) as [v |].
    + apply (finish_outdated params v G H). now intros ->.
    + now apply (finish_outdated params (JInt 1)).
  - now exists e.
Qed.

(** The item the check samples is an item of the list. *)
Lemma sampled_In {A} (l : list A) (x : A) :
  sampled pick l = Some x -> In x l.
Proof.
  destruct l as [| a l]; [discriminate |]. unfold sampled.
  apply nth_error_In.
Qed.

(** The arguments built from the defaults pass the check, whatever the
    version is. *)
Lemma default_arguments_conform (v : pyval) :
  type_check pick (build (dict_set "cur_version" v default_params)) = true.
Proof.
  unfold type_check. cbn -[sampled].
  destruct (sampled pick _) as [j |] eqn:E; [| reflexivity].
  apply sampled_In in E. cbn in E.
  destruct E as [<- | [<- | []]]; reflexivity.
Qed.

(** C10.  A file that gives [cur_version] the float NaN does not supply a
    version of at least 2, and yet [parse_args] returns parameters for
    it: [NaN < 2] is false, so the version check does not raise. *)
Theorem nan_version_accepted :
  supplies_version_2 (ConfigFile (Ok (JObject nan_version_items))) = false /\
  parse_args from_dict pick (ConfigFile (Ok (JObject nan_version_items)))
  = Ok (build (dict_set "cur_version" (PJson JNaN) default_params)).
Proof.
  split; [reflexivity |].
  cbn [parse_args].
  change (merge from_dict nan_version_items default_params)
    with (Ok (dict_set "cur_version" (PJson JNaN) default_params)).
  change (log_params (dict_set "cur_version" (PJson JNaN) default_params))
    with (Ok tt).
  cbv beta iota. unfold finish.
  rewrite dict_get_set_same. cbn [below_2]. unfold construct.
  now rewrite default_arguments_conform.
Qed.

End LoaderFacts.

(** A file with [cur_version] 2 is accepted, one with 1 is not. *)
Example parse_args_versions :
  is_ok (parse_args (fun _ => Raise TypeError) (fun _ => 0%nat)
           (ConfigFile (Ok (JObject [("cur_version"%string, JInt 2)])))) = true /\
  parse_args (fun _ => Raise TypeError) (fun _ => 0%nat)
    (ConfigFile (Ok (JObject [("cur_version"%string, JInt 1)])))
  = Raise (ValueError outdated_msg).
Proof. split; reflexivity. Qed.

(** * Further properties *)

(** ** Crossings of the trigger channel *)

Lemma where_nonzero_In (v : list Z) :
  forall i0 z,
    In z (where_nonzero i0 v) <->
    exists k x, z = i0 + Z.of_nat k /\ nth_error v k = Some x /\ x <> 0.
Proof.
  induction v as [| a v IH]; intros i0 z; cbn [where_nonzero].
  - split; [intros [] | intros (k & x & _ & E & _); destruct k; discriminate].
  - assert (Htail : In z (where_nonzero (i0 + 1) v) <->
                    exists k x, z = i0 + Z.of_nat (S k)
                                /\ nth_error v k = Some x /\ x <> 0).
    { rewrite IH. split; intros (k & x & E & Hn & Hx); exists k, x;
        (split; [lia | auto]). }
    destruct (Z.eqb_spec a 0) as [-> | Na].
    + rewrite Htail. split.
      * intros (k & x & E & Hn & Hx). exists (S k), x. auto.
      * intros ([| k] & x & E & Hn & Hx); cbn in Hn.
        -- injection Hn as <-. congruence.
        -- exists k, x. auto.
    + cbn [In]. rewrite Htail. split.
      * intros [<- | (k & x & E & Hn & Hx)].
        -- exists 0%nat, a. repeat split; [lia | assumption].
        -- exists (S k), x. auto.
      * intros ([| k] & x & E & Hn & Hx); cbn in Hn.
        -- left. lia.
        -- right. exists k, x. auto.
Qed.

Lemma nth_error_diff (l : list Z) :
  forall k,
    nth_error (diff l) k
    = match nth_error l k, nth_error l (S k) with
      | Some a, Some b => Some (b - a)
      | _, _ => None
      end.
Proof.
  induction l as [| a [| b l] IH]; intro k.
  - destruct k; reflexivity.
  - destruct k as [| [| k]]; reflexivity.
  - destruct k as [| k].
    + reflexivity.
    + change (diff (a :: b :: l)) with ((b - a) :: diff (b :: l)).
      cbn [nth_error]. rewrite IH. reflexivity.
Qed.

(** X1.  An index is a crossing exactly when the sample at it and the next
    sample lie on different sides of the level. *)
Theorem crossing_iff_side_change (channel_data : list Q) (level : Q) (z : Z) :
  In z (crossings_of channel_data level) <->
  exists k x y,
    z = Z.of_nat k /\
    nth_error channel_data k = Some x /\
    nth_error channel_data (S k) = Some y /\
    above level x <> above level y.
Proof.
  unfold crossings_of. rewrite where_nonzero_In. split.
  - intros (k & d & E & Hn & Hd).
    rewrite nth_error_diff, !nth_error_map in Hn.
    destruct (nth_error channel_data k) as [x |] eqn:Ex; [| discriminate].
    destruct (nth_error channel_data (S k)) as [y |] eqn:Ey;
      [| discriminate].
    cbn [option_map] in Hn. injection Hn as <-.
    exists k, x, y.
    split; [lia |]. split; [exact Ex |]. split; [exact Ey | lia].
  - intros (k & x & y & E & Hx & Hy & Hs).
    exists k, (above level y - above level x).
    split; [lia |]. split; [| lia].
    rewrite nth_error_diff, !nth_error_map, Hx, Hy. reflexivity.
Qed.

Lemma where_nonzero_sorted (v : list Z) :
  forall i0,
    StronglySorted Z.lt (where_nonzero i0 v) /\
    Forall (fun z => i0 <= z < i0 + Z.of_nat (length v)) (where_nonzero i0 v).
Proof.
  induction v as [| a v IH]; intro i0; cbn [where_nonzero length].
  - split; constructor.
  - destruct (IH (i0 + 1)) as [Hs Hb].
    assert (Hb' : Forall (fun z => i0 < z < i0 + Z.of_nat (S (length v)))
                         (where_nonzero (i0 + 1) v)).
    { eapply Forall_impl; [| exact Hb]. cbn beta. intros z Hz. lia. }
    destruct (a =? 0).
    + split; [exact Hs |].
      eapply Forall_impl; [| exact Hb']. cbn beta. intros z Hz. lia.
    + split.
      * constructor; [exact Hs |].
        eapply Forall_impl; [| exact Hb']. cbn beta. intros z Hz. lia.
      * constructor; [lia |].
        eapply Forall_impl; [| exact Hb']. cbn beta. intros z Hz. lia.
Qed.

Lemma diff_length (l : list Z) : length (diff l) = (length l - 1)%nat.
Proof.
  induction l as [| a [| b l] IH]; [reflexivity | reflexivity |].
  change (diff (a :: b :: l)) with ((b - a) :: diff (b :: l)).
  cbn [length] in *. rewrite IH. lia.
Qed.

Lemma last_in_cons {A} (l : list A) :
  forall a d, In (last (a :: l) d) (a :: l).
Proof.
  induction l as [| b l IH]; intros a d.
  - left. reflexivity.
  - right. change (last (a :: b :: l) d) with (last (b :: l) d). apply IH.
Qed.

Lemma sorted_head_le_last (c0 : Z) (rest : list Z) :
  StronglySorted Z.lt (c0 :: rest) -> c0 <= last (c0 :: rest) c0.
Proof.
  intro H. inversion H as [| ? ? _ Hall]; subst.
  destruct rest as [| c rest]; [cbn; lia |].
  change (last (c0 :: c :: rest) c0) with (last (c :: rest) c0).
  rewrite Forall_forall in Hall.
  specialize (Hall _ (last_in_cons rest c c0)). lia.
Qed.

(** X2.  The crossings come in increasing order, so the first is not
    after the last, and both leave room for the sample after them. *)
Theorem crossings_ordered (channel_data : list Q) (level : Q)
    (c0 : Z) (rest : list Z) :
  crossings_of channel_data level = c0 :: rest ->
  StronglySorted Z.lt (c0 :: rest) /\
  0 <= c0 /\
  c0 <= last (c0 :: rest) c0 /\
  last (c0 :: rest) c0 + 1 < Z.of_nat (length channel_data).
Proof.
  intro E. unfold crossings_of in E.
  destruct (where_nonzero_sorted
              (diff (map (above level) channel_data)) 0) as [Hs Hb].
  rewrite E in Hs, Hb. rewrite diff_length, length_map in Hb.
  split; [exact Hs |].
  pose proof (last_in_cons rest c0 c0) as Hl.
  rewrite Forall_forall in Hb.
  pose proof (Hb c0 (or_introl eq_refl)) as H0.
  pose proof (Hb _ Hl) as H1.
  pose proof (sorted_head_le_last c0 rest Hs) as H2.
  repeat split; lia.
Qed.

Lemma crossings_ordered_witness :
  StronglySorted Z.lt [1; 5] /\ 0 <= 1 /\ 1 <= last [1; 5] 1 /\
  last [1; 5] 1 + 1 < Z.of_nat (length [0; 0; 3; 3; 3; 3; 0; 0]%Q).
Proof.
  apply (crossings_ordered [0; 0; 3; 3; 3; 3; 0; 0]%Q 2 1 [5]). reflexivity.
Defined.

(** ** What [crop_data] returns *)

Lemma slice_segment {A} (start stop : Z) (l : list A) :
  exists pre post, l = pre ++ slice start stop l ++ post.
Proof.
  unfold slice.
  set (s := slice_bound (length l) start).
  set (e := slice_bound (length l) stop).
  exists (firstn s l), (skipn (e - s) (skipn s l)).
  now rewrite firstn_skipn, firstn_skipn.
Qed.

(** X3.  Whatever [crop_data] returns has the channels of its input, and
    its rows are consecutive rows of the input. *)
Theorem crop_data_returns_segment (data out : ndarray) (p : AcqParams) :
  crop_data data p = Ok out ->
  ncols out = ncols data /\
  exists pre post, rows data = pre ++ rows out ++ post.
Proof.
  unfold crop_data. destruct (negb (with_crop p)).
  - intros [= <-]. split; [reflexivity |].
    exists [], []. now rewrite app_nil_r.
  - destruct (column data (trigger_channel_no p)) as [ch |]; [| discriminate].
    destruct (crossings_of ch (trigger_level p)) as [| c0 cs];
      [discriminate |].
    destruct (crop_window data p c0 (last (c0 :: cs) c0)) as [s e].
    intros [= <-]. split; [reflexivity |]. cbn [rows slice_rows].
    apply slice_segment.
Qed.

Lemma crop_data_returns_segment_witness :
  ncols (mkArray 4 [ [0; 0; 0; 0]; [0; 0; 0; 0]; [3; 0; 0; 0]; [3; 0; 0; 0] ]%Q)
  = ncols pulse_data /\
  exists pre post,
    rows pulse_data
    = pre ++ rows (mkArray 4 [ [0; 0; 0; 0]; [0; 0; 0; 0];
                               [3; 0; 0; 0]; [3; 0; 0; 0] ]%Q) ++ post.
Proof.
  apply (crop_data_returns_segment pulse_data _ pulse_params). reflexivity.
Defined.

(** X4.  For a pre-trigger duration and a rate that are not negative, the
    window starts at a valid index that is not after the first crossing. *)
Theorem crop_window_start_bounds (data : ndarray) (p : AcqParams)
    (c0 c1 : Z) :
  (0 <= pre_acquisition_duration p * sample_rate p)%Q ->
  0 <= c0 ->
  0 <= fst (crop_window data p c0 c1) <= c0.
Proof.
  intros Hp Hc. rewrite crop_window_spec. cbn [fst].
  assert (0 <= pre_trigger_samples p).
  { unfold pre_trigger_samples. rewrite int_nonneg by exact Hp.
    change 0 with (Qfloor 0). now apply Qfloor_resp_le. }
  lia.
Qed.

Lemma crop_window_start_bounds_witness :
  0 <= fst (crop_window pulse_data pulse_params 1 5) <= 1.
Proof.
  apply crop_window_start_bounds; [discriminate | lia].
Defined.

(** ** File formats *)

(** X5.  [from_str] inverts the value of a member, and accepts nothing
    but the value of a member. *)
Theorem FileFormat_from_str_round_trip :
  (forall f, FileFormat_from_str (FileFormat_value f) = Ok f) /\
  (forall s f, FileFormat_from_str s = Ok f -> FileFormat_value f = s) /\
  (forall s, s <> "CSV"%string -> s <> "PQT"%string ->
             FileFormat_from_str s
             = Raise (ValueError (s ++ " is not a valid FileFormat"))).
Proof.
  split; [| split].
  - intros []; reflexivity.
  - intros s f. unfold FileFormat_from_str.
    destruct (String.eqb_spec (FileFormat_value CSV) s) as [<- | _].
    + now intros [= <-].
    + destruct (String.eqb_spec (FileFormat_value PQT) s) as [<- | _];
        [now intros [= <-] | discriminate].
  - intros s H1 H2. unfold FileFormat_from_str.
    destruct (String.eqb_spec (FileFormat_value CSV) s) as [E | _];
      [cbn in E; congruence |].
    destruct (String.eqb_spec (FileFormat_value PQT) s) as [E | _];
      [cbn in E; congruence | reflexivity].
Qed.

Lemma FileFormat_from_str_round_trip_witness :
  FileFormat_from_str "csv"
  = Raise (ValueError "csv is not a valid FileFormat").
Proof.
  apply (proj2 (proj2 FileFormat_from_str_round_trip)); discriminate.
Defined.

(** ** The sensor of a plotted channel *)

(** X6.  Channel [i] of the matrix is described by entry [i] of the
    sensors of card 0 followed by those of card 1; past their end the
    lookup raises [IndexError]. *)
Theorem sensor_of_channel_concat (p : AcqParams) (i : nat) :
  sensor_of_channel p i
  = match nth_error (sensors_card_0 p ++ sensors_card_1 p) i with
    | Some s => Ok s
    | None => Raise IndexError
    end.
Proof.
  unfold sensor_of_channel.
  destruct (Nat.ltb_spec i (length (sensors_card_0 p))) as [L | G].
  - now rewrite nth_error_app1.
  - now rewrite nth_error_app2.
Qed.

(** ** Flags of the detector *)

Lemma outlier_scores_count (data : ndarray) (threshold : Q) :
  length (outlier_scores data threshold) = score_count data.
Proof.
  unfold score_count. destruct (ncols data) as [| n] eqn:E.
  - unfold outlier_scores, zscore, channels_of. rewrite E. reflexivity.
  - rewrite <- E. rewrite outlier_scores_length by lia. lia.
Qed.

Lemma outlier_scores_values (data : ndarray) (threshold : Q) :
  Forall (fun f => f = 0 \/ f = 1) (outlier_scores data threshold).
Proof.
  unfold outlier_scores. apply Forall_forall. intros f Hf.
  apply in_map_iff in Hf as [z [<- _]].
  destruct (fgt _ _); auto.
Qed.

Lemma index_none_or_some (n : nat) (k : Z) :
  index n k = None \/ exists j, index n k = Some j.
Proof. destruct (index n k) as [j |]; [right; now exists j | now left]. Qed.

(** The two writes of the detector, over the scores it has. *)
Lemma detect_writes (data : ndarray) (p : AcqParams) (t m : nat) :
  index (score_count data) (trigger_channel_no p) = Some t ->
  index (score_count data) (emission_on_channel_no p) = Some m ->
  exists flags,
    detect_dissimilar_channels data p = Ok flags /\
    length flags = score_count data /\
    nth_error flags t = Some (-1) /\
    nth_error flags m = Some (-1) /\
    forall i, i <> t -> i <> m ->
      nth_error flags i
      = nth_error (outlier_scores data (sensitivity_threshold p)) i.
Proof.
  intros Et Em.
  pose proof (index_lt _ _ _ Et) as Lt.
  pose proof (index_lt _ _ _ Em) as Lm.
  pose proof (outlier_scores_count data (sensitivity_threshold p)) as Hl.
  set (o := outlier_scores data (sensitivity_threshold p)) in *.
  set (o1 := firstn t o ++ -1 :: skipn (S t) o).
  assert (Hl1 : length o1 = length o) by (apply set_length; lia).
  exists (firstn m o1 ++ -1 :: skipn (S m) o1).
  split; [| split; [| split; [| split]]].
  - unfold detect_dissimilar_channels. fold o.
    rewrite (set_item_ok o (-1) t) by (rewrite Hl; exact Et).
    fold o1. apply set_item_ok. rewrite Hl1, Hl. exact Em.
  - rewrite set_length; lia.
  - destruct (Nat.eq_dec t m) as [-> | Ne].
    + apply set_same. lia.
    + rewrite set_other by (lia || assumption). apply set_same. lia.
  - apply set_same. lia.
  - intros i Ht Hm. rewrite set_other by (lia || assumption).
    apply set_other; lia || assumption.
Qed.

(** X7.  The detector returns flags exactly when both indices are within
    the scores; otherwise it raises [IndexError]. *)
Theorem detect_index_error (data : ndarray) (p : AcqParams) :
  (exists t m flags,
     index (score_count data) (trigger_channel_no p) = Some t /\
     index (score_count data) (emission_on_channel_no p) = Some m /\
     detect_dissimilar_channels data p = Ok flags /\
     length flags = score_count data) \/
  ((index (score_count data) (trigger_channel_no p) = None \/
    index (score_count data) (emission_on_channel_no p) = None) /\
   detect_dissimilar_channels data p = Raise IndexError).
Proof.
  pose proof (outlier_scores_count data (sensitivity_threshold p)) as Hl.
  destruct (index_none_or_some (score_count data) (trigger_channel_no p))
    as [Nt | [t Et]].
  { right. split; [now left |].
    unfold detect_dissimilar_channels, set_item. now rewrite Hl, Nt. }
  destruct (index_none_or_some (score_count data) (emission_on_channel_no p))
    as [Nm | [m Em]].
  - right. split; [now right |].
    pose proof (index_lt _ _ _ Et) as Lt.
    unfold detect_dissimilar_channels.
    rewrite (set_item_ok _ (-1) t) by (rewrite Hl; exact Et).
    unfold set_item. rewrite set_length by lia. now rewrite Hl, Nm.
  - left. destruct (detect_writes data p t m Et Em) as (flags & E & L & _).
    exists t, m, flags. auto.
Qed.

(** X8.  With both indices in range, every flag is -1, 0 or 1, and the
    flags that are -1 are those of the trigger and emission channels. *)
Theorem detect_flag_values (data : ndarray) (p : AcqParams) (t m : nat) :
  index (score_count data) (trigger_channel_no p) = Some t ->
  index (score_count data) (emission_on_channel_no p) = Some m ->
  exists flags,
    detect_dissimilar_channels data p = Ok flags /\
    forall i f, nth_error flags i = Some f ->
      (f = -1 /\ (i = t \/ i = m)) \/
      ((f = 0 \/ f = 1) /\ i <> t /\ i <> m).
Proof.
  intros Et Em.
  destruct (detect_writes data p t m Et Em)
    as (flags & E & L & Ht & Hm & Hother).
  exists flags. split; [exact E |]. intros i f Hf.
  destruct (Nat.eq_dec i t) as [-> | Nt].
  { left. split; [congruence | now left]. }
  destruct (Nat.eq_dec i m) as [-> | Nm].
  { left. split; [congruence | now right]. }
  right. split; [| split; assumption].
  rewrite (Hother i Nt Nm) in Hf. apply nth_error_In in Hf.
  pose proof (outlier_scores_values data (sensitivity_threshold p)) as Hv.
  rewrite Forall_forall in Hv. now apply Hv.
Qed.

Lemma detect_flag_values_witness :
  exists flags,
    detect_dissimilar_channels pulse_data pulse_params = Ok flags /\
    forall i f, nth_error flags i = Some f ->
      (f = -1 /\ (i = 0%nat \/ i = 1%nat)) \/
      ((f = 0 \/ f = 1) /\ i <> 0%nat /\ i <> 1%nat).
Proof.
  apply (detect_flag_values pulse_data pulse_params 0 1); reflexivity.
Defined.

Lemma fgt_weaken (a : float) (q q' : Q) :
  (q <= q')%Q -> fgt a (of_Q q') = true -> fgt a (of_Q q) = true.
Proof.
  intros Hq. destruct a as [x |]; cbn; [| discriminate].
  apply Qle_Rle in Hq.
  destruct (Rlt_dec (Q2R q') x) as [L' | _]; [| discriminate].
  intros _. destruct (Rlt_dec (Q2R q) x) as [_ | N]; [reflexivity |].
  exfalso. apply N. lra.
Qed.

Lemma outlier_scores_monotone (data : ndarray) (q q' : Q) (i : nat) :
  (q <= q')%Q ->
  nth_error (outlier_scores data q') i = Some 1 ->
  nth_error (outlier_scores data q) i = Some 1.
Proof.
  intros Hq. unfold outlier_scores. rewrite !nth_error_map.
  destruct (nth_error _ i) as [z |]; cbn [option_map]; [| discriminate].
  destruct (fgt (fabs z) (of_Q q')) eqn:F; [| discriminate].
  intros _. now rewrite (fgt_weaken _ _ _ Hq F).
Qed.

(** X9.  A channel flagged at some sensitivity threshold is flagged at
    every lower threshold: raising the threshold only removes flags. *)
Theorem detect_threshold_monotone (data : ndarray) (p : AcqParams)
    (threshold : Q) (t m : nat) :
  (sensitivity_threshold p <= threshold)%Q ->
  index (score_count data) (trigger_channel_no p) = Some t ->
  index (score_count data) (emission_on_channel_no p) = Some m ->
  exists flags flags',
    detect_dissimilar_channels data p = Ok flags /\
    detect_dissimilar_channels data (with_threshold threshold p) = Ok flags' /\
    forall i, nth_error flags' i = Some 1 -> nth_error flags i = Some 1.
Proof.
  intros Hq Et Em.
  destruct (detect_writes data p t m Et Em)
    as (flags & E & L & Ht & Hm & Hother).
  destruct (detect_writes data (with_threshold threshold p) t m Et Em)
    as (flags' & E' & L' & Ht' & Hm' & Hother').
  exists flags, flags'. split; [exact E |]. split; [exact E' |].
  intros i Hi.
  destruct (Nat.eq_dec i t) as [-> | Nt]; [congruence |].
  destruct (Nat.eq_dec i m) as [-> | Nm]; [congruence |].
  rewrite (Hother' i Nt Nm) in Hi. rewrite (Hother i Nt Nm).
  cbn [sensitivity_threshold with_threshold] in Hi.
  exact (outlier_scores_monotone data _ _ i Hq Hi).
Qed.

Lemma detect_threshold_monotone_witness :
  exists flags flags',
    detect_dissimilar_channels pulse_data pulse_params = Ok flags /\
    detect_dissimilar_channels pulse_data (with_threshold 3 pulse_params)
    = Ok flags' /\
    forall i, nth_error flags' i = Some 1 -> nth_error flags i = Some 1.
Proof.
  apply (detect_threshold_monotone pulse_data pulse_params 3 0 1);
    [discriminate | reflexivity | reflexivity].
Defined.

(** ** The transfer window *)

(** X12.  The clamp does not guard the post-trigger duration: when the
    clamped duration is shorter than the pre-trigger duration, the
    post-trigger duration handed to the card is negative. *)
Theorem clamp_can_make_post_trigger_negative (p : AcqParams) :
  MAX_SAMPLE_NUMBER < num_samples p ->
  (inject_Z MAX_SAMPLE_NUMBER / (sample_rate p * 1000000)
   < pre_acquisition_duration p)%Q ->
  exists w,
    outcome_of (transfer_window p) = Ok w /\
    (post_acq_duration w < 0)%Q.
Proof.
  intros L H. unfold transfer_window.
  destruct (Z.ltb_spec MAX_SAMPLE_NUMBER (num_samples p)) as [_ | G]; [| lia].
  eexists. split; [reflexivity |]. cbn.
  apply (Qplus_lt_l _ _ (pre_acquisition_duration p)).
  ring_simplify. exact H.
Qed.

Lemma clamp_can_make_post_trigger_negative_witness :
  exists w,
    outcome_of (transfer_window early_params) = Ok w /\
    (post_acq_duration w < 0)%Q.
Proof.
  apply clamp_can_make_post_trigger_negative; reflexivity.
Defined.

(** ** Events of a whole run *)

Ltac classify_by tac :=
  repeat first
    [ apply class_ret
    | apply class_raise
    | apply class_lift
    | apply class_emit; tac
    | apply class_hw; tac
    | apply class_logged; [tac |]
    | apply class_for_each; intros
    | apply class_bind; [| intros]
    | match goal with
      | |- Forall _ (trace_of (match ?x with _ => _ end)) =>
          let E := fresh "E" in destruct x eqn:E
      end ].

Lemma acquire_events (P : event -> Prop) (rig : Rig) (sched : list nat)
    (p : AcqParams) :
  (forall ev, pool_event ev = true -> P ev) ->
  (forall l msg, P (Log l msg)) ->
  (forall ev, assembly_event ev = true -> P ev) ->
  Forall P (trace_of (acquire rig sched p)).
Proof.
  intros Hpool Hlog Hasm. unfold acquire.
  destruct (fan_out_fan_in rig sched) as [pl ev] eqn:E.
  destruct (fan_out_fan_in_ok _ _ _ _ E) as (_ & _ & _ & Hev & _).
  apply class_logged; [apply Hlog |].
  apply class_bind.
  { cbn. eapply Forall_impl; [| exact Hev]. exact Hpool. }
  intros _. unfold check_queue, channel_check.
  classify_by ltac:(first [apply Hlog | apply Hasm; reflexivity]).
Qed.

(** The events of a run are those of the setup, of the synchronised
    start, of the pool, of assembly, and log lines. *)
Lemma run_events (P : event -> Prop) (rig : Rig) (sched : list nat)
    (p : AcqParams) :
  Forall P (trace_of (configure_channels rig p)) ->
  Forall P (trace_of (setup_cards rig p)) ->
  (forall ev, sync_event ev = true -> P ev) ->
  (forall ev, pool_event ev = true -> P ev) ->
  (forall l msg, P (Log l msg)) ->
  (forall ev, assembly_event ev = true -> P ev) ->
  Forall P (trace_of (run_acquisition rig sched p)).
Proof.
  intros Hc Hs Hsync Hpool Hlog Hasm. unfold run_acquisition.
  apply class_bind; [exact Hc | intros _].
  apply class_bind; [exact Hs | intros _].
  apply class_bind; [| intros _; now apply acquire_events].
  unfold synchronized_start.
  classify_by ltac:(first [apply Hlog | apply Hsync; reflexivity]).
Qed.

Lemma configure_channels_configures (rig : Rig) (p : AcqParams) :
  Forall (fun ev => configuration_event ev = true)
         (trace_of (configure_channels rig p)).
Proof.
  unfold configure_channels, configure_channel, configure_from. classify.
Qed.

Lemma setup_cards_timeouts (rig : Rig) (p : AcqParams) :
  Forall (timeout_covers p) (trace_of (setup_cards rig p)).
Proof.
  unfold setup_cards, setup_card, setup_timeout, transfer_window.
  classify_by ltac:(try exact I).
  - (* the timeout is raised to five seconds above the duration *)
    split.
    + apply Qnot_le_lt. intro C. apply Qle_bool_iff in C.
      match goal with H : Qle_bool (card_timeout p) 0 = false |- _ =>
        rewrite H in C end. discriminate.
    + rewrite <- (Qplus_0_r (total_duration p)) at 1.
      apply Qplus_lt_r. reflexivity.
  - split.
    + apply Qnot_le_lt. intro C. apply Qle_bool_iff in C.
      match goal with H : Qle_bool (card_timeout p) 0 = false |- _ =>
        rewrite H in C end. discriminate.
    + rewrite <- (Qplus_0_r (total_duration p)) at 1.
      apply Qplus_lt_r. reflexivity.
  - (* the configured timeout is kept when it is above the duration *)
    split.
    + apply Qnot_le_lt. intro C. apply Qle_bool_iff in C.
      match goal with H : Qle_bool (card_timeout p) 0 = false |- _ =>
        rewrite H in C end. discriminate.
    + apply Qnot_le_lt. intro C. apply Qle_bool_iff in C.
      match goal with
        H : Qle_bool (card_timeout p) (total_duration p) = false |- _ =>
        rewrite H in C end. discriminate.
  - split.
    + apply Qnot_le_lt. intro C. apply Qle_bool_iff in C.
      match goal with H : Qle_bool (card_timeout p) 0 = false |- _ =>
        rewrite H in C end. discriminate.
    + apply Qnot_le_lt. intro C. apply Qle_bool_iff in C.
      match goal with
        H : Qle_bool (card_timeout p) (total_duration p) = false |- _ =>
        rewrite H in C end. discriminate.
Qed.

(** X13.  A timeout is given to a card only when [card_timeout] is
    positive, and every timeout given is longer than the summed duration
    of the acquisition. *)
Theorem card_timeout_covers_acquisition (rig : Rig) (sched : list nat)
    (p : AcqParams) (i : nat) (s : Q) :
  In (Call (CardTimeout i s)) (trace_of (run_acquisition rig sched p)) ->
  (0 < card_timeout p)%Q /\ (total_duration p < s)%Q.
Proof.
  intro Hin.
  assert (H : Forall (timeout_covers p)
                     (trace_of (run_acquisition rig sched p))).
  { apply run_events.
    - eapply Forall_impl; [| apply configure_channels_configures].
      intros [c | c | | | | |]; try destruct c; cbn;
        congruence || exact (fun _ => I).
    - apply setup_cards_timeouts.
    - intros [c | c | | | | |]; try destruct c; cbn;
        congruence || exact (fun _ => I).
    - intros [c | c | | | ? x | |]; try destruct c; try destruct x; cbn;
        congruence || exact (fun _ => I).
    - intros l msg. exact I.
    - intros [c | c | | | | |]; try destruct c; cbn;
        congruence || exact (fun _ => I). }
  rewrite Forall_forall in H. exact (H _ Hin).
Qed.

Lemma card_timeout_covers_acquisition_witness :
  (0 < card_timeout pulse_params)%Q /\
  (total_duration pulse_params < total_duration pulse_params + 5)%Q.
Proof.
  apply (card_timeout_covers_acquisition healthy_rig [1; 0]%nat pulse_params 0).
  apply (nth_error_In _ 17). reflexivity.
Defined.

(** ** A channel without an entry *)

Lemma for_each_raises {A} (body : A -> M unit) (l : list A) (a : A) :
  In a l -> (exists e, outcome_of (body a) = Raise e) ->
  exists e, outcome_of (for_each body l) = Raise e.
Proof.
  intros Hin [e He]. induction l as [| b l IH]; [destruct Hin |].
  cbn [for_each]. rewrite outcome_bind.
  destruct (outcome_of (body b)) as [[] | e'] eqn:Eb.
  - destruct Hin as [-> | Hin]; [congruence | now apply IH].
  - now exists e'.
Qed.

Lemma for_each_raise_from {A} (body : A -> M unit) (l : list A) (e : exn) :
  outcome_of (for_each body l) = Raise e ->
  exists a, In a l /\ outcome_of (body a) = Raise e.
Proof.
  induction l as [| b l IH]; cbn [for_each]; [discriminate |].
  rewrite outcome_bind.
  destruct (outcome_of (body b)) as [[] | e'] eqn:Eb.
  - intro H. destruct (IH H) as (a & Hin & Ha). exists a. split; [now right | exact Ha].
  - intros [= <-]. exists b. split; [now left | exact Eb].
Qed.

Lemma configure_channel_unmatched (rig : Rig) (p : AcqParams) (c : Z * Z) :
  unmatched p c = true ->
  outcome_of (configure_channel rig p c) = Raise (ValueError not_found_msg).
Proof.
  destruct c as [card ch]. unfold unmatched, configure_channel, configure_from.
  cbn [fst snd].
  destruct (find _ (sensors_card_0 p)); [discriminate |].
  destruct (find _ (sensors_card_1 p)); [discriminate |].
  reflexivity.
Qed.

Lemma configure_channel_without_faults (rig : Rig) (p : AcqParams)
    (c : Z * Z) (e : exn) :
  (forall cmd, fault_at rig cmd = None) ->
  outcome_of (configure_channel rig p c) = Raise e ->
  e = ValueError not_found_msg.
Proof.
  intro Hn. destruct c as [card ch].
  unfold configure_channel, configure_from, hw.
  destruct (find _ (sensors_card_0 p)); destruct (find _ (sensors_card_1 p));
    rewrite ?Hn; cbn; unfold not_found_msg; congruence.
Qed.

(** X14.  When the hardware reports a channel that neither sensor list
    names, the run raises during channel configuration: no card is set
    up, nothing is started or launched, and, unless a driver call failed
    first, the exception is the channel-not-found [ValueError]. *)
Theorem unmatched_channel_fails_fast (rig : Rig) (sched : list nat)
    (p : AcqParams) (c : Z * Z) :
  In c (stack_channels rig) ->
  unmatched p c = true ->
  exists e,
    outcome_of (run_acquisition rig sched p) = Raise e /\
    Forall (fun ev => configuration_event ev = true)
           (trace_of (run_acquisition rig sched p)) /\
    ((forall cmd, fault_at rig cmd = None) ->
     e = ValueError not_found_msg).
Proof.
  intros Hin Hun.
  assert (Hcfg : exists e,
             outcome_of (configure_channels rig p) = Raise e /\
             ((forall cmd, fault_at rig cmd = None) ->
              e = ValueError not_found_msg)).
  { unfold configure_channels. rewrite outcome_logged, outcome_bind.
    unfold hw at 1. destruct (fault_at rig OpenChannels) as [e0 |] eqn:F0.
    - exists e0. split; [reflexivity |]. intro Hn. rewrite Hn in F0. discriminate.
    - cbn [outcome_of snd emit bind raise ret].
      destruct (for_each_raises (configure_channel rig p) _ c Hin
                  (ex_intro _ _ (configure_channel_unmatched rig p c Hun)))
        as [e He].
      exists e. split; [exact He |]. intro Hn.
      destruct (for_each_raise_from _ _ _ He) as (a & _ & Ha).
      exact (configure_channel_without_faults rig p a e Hn Ha). }
  destruct Hcfg as (e & He & Hmsg). exists e.
  unfold run_acquisition. rewrite outcome_bind, trace_bind, He, app_nil_r.
  split; [reflexivity |]. split; [apply configure_channels_configures | exact Hmsg].
Qed.

Lemma unmatched_channel_fails_fast_witness :
  exists e,
    outcome_of (run_acquisition extra_channel_rig [] pulse_params) = Raise e /\
    Forall (fun ev => configuration_event ev = true)
           (trace_of (run_acquisition extra_channel_rig [] pulse_params)) /\
    ((forall cmd, fault_at extra_channel_rig cmd = None) ->
     e = ValueError not_found_msg).
Proof.
  apply (unmatched_channel_fails_fast extra_channel_rig [] pulse_params (1, 1)).
  - cbn. auto.
  - reflexivity.
Defined.

(** ** The queue after the join *)

Lemma CardThread_run_fault (t : CardThread) (q : list exn) :
  has_ex_queue t = true ->
  CardThread_run t q = (q ++ fault_of t, Returned).
Proof.
  intro H. unfold CardThread_run, fault_of. destruct (card_obj t).
  - now rewrite app_nil_r.
  - now rewrite H.
Qed.

Lemma run_in_faults (i : nat) (ts : list (CardThread * option thread_exit)) :
  forall q ts' q' ev,
    run_in i ts q = (ts', q', ev) ->
    pool_ok ts q ->
    exists added,
      q' = q ++ added /\
      Permutation (finished_faults ts') (finished_faults ts ++ added).
Proof.
  induction ts as [| [t st] ts IH]; intros q ts' q' ev E Hok; cbn in E.
  - injection E as <- <- <-. exists []. now rewrite !app_nil_r.
  - inversion Hok as [| ? ? [Hq _] Hrest]; subst. cbn in Hq.
    assert (Hskip : forall ts'' q'' ev'',
               run_in i ts q = (ts'', q'', ev'') ->
               exists added,
                 q'' = q ++ added /\
                 Permutation (finished_faults ((t, st) :: ts''))
                             (finished_faults ((t, st) :: ts) ++ added)).
    { intros ts'' q'' ev'' R.
      destruct (IH _ _ _ _ R Hrest) as (added & Eq & Hp).
      exists added. split; [exact Eq |].
      cbn [finished_faults flat_map]. rewrite <- app_assoc.
      now apply Permutation_app_head. }
    destruct st as [x |].
    + destruct (run_in i ts q) as [[ts'' q''] ev''] eqn:R.
      injection E as <- <- <-. exact (Hskip _ _ _ eq_refl).
    + destruct (Nat.eqb (card_index t) i).
      * rewrite (CardThread_run_fault t q Hq) in E.
        injection E as <- <- <-. exists (fault_of t). split; [reflexivity |].
        cbn [finished_faults flat_map fst snd app].
        apply Permutation_app_comm.
      * destruct (run_in i ts q) as [[ts'' q''] ev''] eqn:R.
        injection E as <- <- <-. exact (Hskip _ _ _ eq_refl).
Qed.

Lemma run_schedule_faults (sched : list nat) :
  forall pl pl' ev,
    run_schedule sched pl = (pl', ev) ->
    pool_ok (pool_threads pl) (exc_queue pl) ->
    Permutation (exc_queue pl) (finished_faults (pool_threads pl)) ->
    Permutation (exc_queue pl') (finished_faults (pool_threads pl')).
Proof.
  induction sched as [| i sched IH]; intros pl pl' ev E Hok Hp; cbn in E.
  - now injection E as <- <-.
  - unfold run_worker in E.
    destruct (run_in i (pool_threads pl) (exc_queue pl))
      as [[ts1 q1] ev1] eqn:R.
    destruct (run_schedule sched (mkPool ts1 q1)) as [pl2 ev2] eqn:S.
    injection E as <- <-.
    destruct (run_in_ok _ _ _ _ _ _ R Hok) as (Hok1 & _).
    destruct (run_in_faults _ _ _ _ _ _ R Hok) as (added & -> & Hp1).
    apply (IH _ _ _ S Hok1). cbn [exc_queue pool_threads].
    rewrite Hp1. now apply Permutation_app_tail.
Qed.

Lemma join_all_faults (ts : list (CardThread * option thread_exit)) :
  forall q ts' q' ev,
    join_all ts q = (ts', q', ev) ->
    pool_ok ts q ->
    exists added,
      q' = q ++ added /\
      Permutation (finished_faults ts') (finished_faults ts ++ added).
Proof.
  induction ts as [| [t st] ts IH]; intros q ts' q' ev E Hok; cbn in E.
  - injection E as <- <- <-. exists []. now rewrite !app_nil_r.
  - inversion Hok as [| ? ? [Hq Hx] Hrest]; subst. cbn in Hq, Hx.
    destruct st as [x |].
    + destruct (join_all ts q) as [[ts2 q2] ev2] eqn:J.
      injection E as <- <- <-.
      destruct (IH _ _ _ _ J Hrest) as (added & Eq & Hp).
      exists added. split; [exact Eq |].
      cbn [finished_faults flat_map fst snd]. rewrite <- app_assoc.
      now apply Permutation_app_head.
    + rewrite (CardThread_run_fault t q Hq) in E.
      destruct (join_all ts (q ++ fault_of t)) as [[ts2 q2] ev2] eqn:J.
      injection E as <- <- <-.
      assert (Hrest' : pool_ok ts (q ++ fault_of t)).
      { eapply pool_ok_incl; [| exact Hrest]. apply incl_appl, incl_refl. }
      destruct (IH _ _ _ _ J Hrest') as (added & Eq & Hp).
      exists (fault_of t ++ added). split; [now rewrite Eq, app_assoc |].
      cbn [finished_faults flat_map fst snd app].
      rewrite Hp. apply Permutation_app_swap_app.
Qed.

Lemma finished_faults_all (ts : list (CardThread * option thread_exit)) :
  Forall (fun ts => snd ts = Some Returned) ts ->
  finished_faults ts = flat_map fault_of (map fst ts).
Proof.
  induction 1 as [| [t st] ts Hst _ IH]; [reflexivity |].
  cbn in Hst. subst st. cbn [finished_faults flat_map map fst snd].
  f_equal. exact IH.
Qed.

Lemma finished_faults_launched (l : list CardThread) :
  finished_faults (map (fun t => (t, None)) l) = [].
Proof. induction l as [| t l IH]; [reflexivity | exact IH]. Qed.

Lemma queue_holds_the_faults_aux (rig : Rig) (sched : list nat) :
  Permutation (exc_queue (fst (fan_out_fan_in rig sched))) (faults_of rig).
Proof.
  destruct (fan_out_fan_in rig sched) as [pl ev] eqn:E. cbn [fst].
  destruct (fan_out_fan_in_ok _ _ _ _ E) as (_ & Hm & Hfin & _).
  unfold fan_out_fan_in in E.
  set (launched := mkPool (map (fun t => (t, None)) (threads_of rig)) []) in E.
  assert (H0 : pool_ok (pool_threads launched) (exc_queue launched)).
  { unfold launched, pool_ok. cbn. apply Forall_forall.
    intros [t st] Hin. apply in_map_iff in Hin as [t' [[= <- <-] Hin]].
    split; [| discriminate].
    unfold threads_of in Hin. apply in_map_iff in Hin as [c [<- _]].
    reflexivity. }
  assert (P0 : Permutation (exc_queue launched)
                           (finished_faults (pool_threads launched))).
  { unfold launched. cbn [exc_queue pool_threads].
    rewrite finished_faults_launched. constructor. }
  destruct (run_schedule sched launched) as [pl1 ev1] eqn:S.
  destruct (join_all (pool_threads pl1) (exc_queue pl1))
    as [[ts2 q2] ev2] eqn:J.
  injection E as <- <-. cbn [exc_queue pool_threads] in *.
  destruct (run_schedule_ok _ _ _ _ S H0) as (Hok1 & _).
  pose proof (run_schedule_faults _ _ _ _ S H0 P0) as P1.
  destruct (join_all_faults _ _ _ _ _ J Hok1) as (added & -> & P2).
  unfold faults_of. rewrite <- Hm, <- (finished_faults_all ts2 Hfin).
  rewrite P2. now apply Permutation_app_tail.
Qed.

(** X15.  Once every thread has been joined, the queue holds the faults
    of the workers whose wait faulted, each once and nothing else, in
    some order. *)
Theorem queue_holds_the_faults (rig : Rig) (sched : list nat) :
  Permutation (exc_queue (fst (fan_out_fan_in rig sched))) (faults_of rig) /\
  length (exc_queue (fst (fan_out_fan_in rig sched)))
  = length (faults_of rig) /\
  (exc_queue (fst (fan_out_fan_in rig sched)) = [] <-> faults_of rig = []).
Proof.
  pose proof (queue_holds_the_faults_aux rig sched) as Hp.
  split; [exact Hp |]. split; [now apply Permutation_length |].
  split; intro H; rewrite H in Hp.
  - now apply Permutation_nil.
  - now apply Permutation_nil, Permutation_sym.
Qed.

(** How the acquisition goes on a filled queue. *)
Lemma acquire_with_faults (rig : Rig) (sched : list nat) (p : AcqParams)
    (pl : Pool) (ev : list event) :
  fan_out_fan_in rig sched = (pl, ev) ->
  exc_queue pl <> [] ->
  acquire rig sched p
  = (ev ++ map (fun _ => Log ERROR caught_msg) (exc_queue pl)
        ++ [Log ERROR encountered_msg],
     Raise (RuntimeError thread_failure_msg)).
Proof.
  intros E Hq. unfold acquire. rewrite E. unfold check_queue.
  destruct (exc_queue pl) as [| e0 q]; [congruence |].
  rewrite for_each_emit. cbn. rewrite app_nil_r, <- app_assoc. reflexivity.
Qed.

(** X16.  Assembly is attempted exactly when no worker faulted. *)
Theorem assembly_iff_no_fault (rig : Rig) (sched : list nat)
    (p : AcqParams) :
  In Assemble (trace_of (acquire rig sched p)) <-> faults_of rig = [].
Proof.
  pose proof (queue_holds_the_faults_aux rig sched) as Hp.
  destruct (fan_out_fan_in rig sched) as [pl ev] eqn:E. cbn [fst] in Hp.
  destruct (fan_out_fan_in_ok _ _ _ _ E) as (_ & _ & _ & Hev & _).
  split.
  - intro Hin. destruct (exc_queue pl) as [| e0 q] eqn:Eq.
    + apply Permutation_nil in Hp. exact Hp.
    + exfalso. rewrite (acquire_with_faults rig sched p pl ev E) in Hin
        by congruence.
      cbn [trace_of fst] in Hin.
      apply in_app_or in Hin as [Hin | Hin].
      * rewrite Forall_forall in Hev. apply Hev in Hin. discriminate.
      * apply in_app_or in Hin as [Hin | [Hin | []]]; [| discriminate].
        apply in_map_iff in Hin as [x [Hx _]]. discriminate.
  - intro Hf. rewrite Hf in Hp. apply Permutation_sym, Permutation_nil in Hp.
    unfold acquire. rewrite E, Hp. rewrite trace_logged.
    apply in_or_app. left. rewrite trace_bind. apply in_or_app. right.
    cbn [outcome_of snd check_queue]. rewrite trace_bind.
    cbn [outcome_of snd trace_of fst ret app]. rewrite trace_bind.
    apply in_or_app. left. left. reflexivity.
Qed.

(** ** Errors and the log *)

Lemma loud_logged {A} (msg : string) (m : M A) : loud (logged msg m).
Proof.
  intros e He. rewrite outcome_logged in He. rewrite trace_logged, He.
  now exists (trace_of m), msg.
Qed.

Lemma loud_bind {A B} (m : M A) (f : A -> M B) :
  loud m -> (forall a, loud (f a)) -> loud (bind m f).
Proof.
  intros Hm Hf e He. rewrite outcome_bind in He. rewrite trace_bind.
  destruct (outcome_of m) as [a | e'] eqn:Em.
  - destruct (Hf a e He) as (t & msg & Et).
    exists (trace_of m ++ t), msg. now rewrite Et, app_assoc.
  - injection He as <-. rewrite app_nil_r. exact (Hm e' Em).
Qed.

(** X17.  A run that raises in one of its four stages (channel
    configuration, card setup, synchronised start, acquisition) has logged
    an error as the last thing it did: every stage logs what it raises
    again. *)
Theorem raising_run_logs_error (rig : Rig) (sched : list nat)
    (p : AcqParams) (e : exn) :
  outcome_of (run_acquisition rig sched p) = Raise e ->
  exists t msg,
    trace_of (run_acquisition rig sched p) = t ++ [Log ERROR msg].
Proof.
  revert e. change (loud (run_acquisition rig sched p)).
  unfold run_acquisition.
  apply loud_bind; [apply loud_logged | intros _].
  apply loud_bind; [apply loud_logged | intros _].
  apply loud_bind; [apply loud_logged | intros _].
  apply loud_logged.
Qed.

Lemma raising_run_logs_error_witness :
  exists t msg,
    trace_of (run_acquisition faulty_rig [1; 0]%nat pulse_params)
    = t ++ [Log ERROR msg].
Proof.
  apply (raising_run_logs_error faulty_rig [1; 0]%nat pulse_params
           (RuntimeError thread_failure_msg)).
  reflexivity.
Defined.

Section Quiet.

Lemma quiet_ret {A} (a : A) : quiet (ret a).
Proof. intros _ _. constructor. Qed.

Lemma quiet_lift {A} (r : result A) : quiet (lift r).
Proof. intros _ _. constructor. Qed.

Lemma quiet_emit (ev : event) : error_log ev = false -> quiet (emit ev).
Proof. intros H _ _. repeat constructor. exact H. Qed.

Lemma quiet_bind {A B} (m : M A) (f : A -> M B) :
  quiet m -> (forall a, quiet (f a)) -> quiet (bind m f).
Proof.
  intros Hm Hf b Hb. rewrite outcome_bind in Hb. rewrite trace_bind.
  destruct (outcome_of m) as [a | e] eqn:Em; [| discriminate].
  apply Forall_app. split; [now apply (Hm a) | now apply (Hf a b)].
Qed.

Lemma quiet_then_raise {A B} (m : M A) (e : exn) :
  quiet (bind m (fun _ => @raise B e)).
Proof.
  intros b Hb. rewrite outcome_bind in Hb.
  destruct (outcome_of m); discriminate.
Qed.

Lemma quiet_logged {A} (msg : string) (m : M A) :
  quiet m -> quiet (logged msg m).
Proof.
  intros Hm a Ha. rewrite outcome_logged in Ha. rewrite trace_logged, Ha.
  rewrite app_nil_r. now apply (Hm a).
Qed.

Lemma quiet_hw (rig : Rig) (c : command) : quiet (hw rig c).
Proof.
  unfold hw. apply quiet_bind; [now apply quiet_emit | intros _].
  destruct (fault_at rig c); [discriminate | now apply quiet_emit].
Qed.

Lemma quiet_for_each {A} (body : A -> M unit) (l : list A) :
  (forall a, quiet (body a)) -> quiet (for_each body l).
Proof.
  intro Hb. induction l as [| a l IH]; cbn [for_each].
  - apply quiet_ret.
  - apply quiet_bind; auto.
Qed.

End Quiet.

Ltac quieten :=
  repeat first
    [ apply quiet_ret
    | apply quiet_lift
    | apply quiet_hw
    | apply quiet_then_raise
    | apply quiet_emit; reflexivity
    | apply quiet_logged
    | apply quiet_for_each; intros
    | apply quiet_bind; [| intros]
    | match goal with
      | |- quiet (match ?x with _ => _ end) => destruct x
      end ].

(** X18.  A run whose four stages return normally has logged no error:
    an error line is always followed by a raise. *)
Theorem successful_run_logs_no_error (rig : Rig) (sched : list nat)
    (p : AcqParams) :
  outcome_of (run_acquisition rig sched p) = Ok tt ->
  Forall (fun ev => error_log ev = false)
         (trace_of (run_acquisition rig sched p)).
Proof.
  enough (Hq : quiet (run_acquisition rig sched p))
    by (intro H; exact (Hq tt H)).
  unfold run_acquisition.
  apply quiet_bind; [| intros _; apply quiet_bind;
                       [| intros _; apply quiet_bind; [| intros _]]].
  - unfold configure_channels, configure_channel, configure_from. quieten.
  - unfold setup_cards, setup_card, setup_timeout, transfer_window. quieten.
  - unfold synchronized_start. quieten.
  - unfold acquire.
    destruct (fan_out_fan_in rig sched) as [pl ev] eqn:E.
    destruct (fan_out_fan_in_ok _ _ _ _ E) as (_ & _ & _ & Hev & _).
    apply quiet_logged. apply quiet_bind.
    { intros _ _. cbn. eapply Forall_impl; [| exact Hev].
      intros [c | c | | | ? x | |]; try destruct x; cbn; congruence. }
    intros _. unfold check_queue, channel_check. quieten.
Qed.

Lemma successful_run_logs_no_error_witness :
  Forall (fun ev => error_log ev = false)
         (trace_of (run_acquisition healthy_rig [1; 0]%nat pulse_params)).
Proof.
  apply (successful_run_logs_no_error healthy_rig [1; 0]%nat pulse_params).
  reflexivity.
Defined.

(** ** Assembly *)

Lemma map_nth_seq {A} (l : list A) (d : A) :
  map (fun i => nth i l d) (seq 0 (length l)) = l.
Proof.
  induction l as [| a l IH]; [reflexivity |].
  cbn [length seq map nth]. f_equal.
  rewrite <- seq_shift, map_map. exact IH.
Qed.

(** X19.  The matrix built from a list of channels has these channels as
    its columns, in the same order: assembling and reading the channels
    back gives the list again. *)
Theorem array_T_channels (chans : list (list Q)) (a : ndarray) :
  array_T chans = Ok a ->
  channels_of a = chans /\
  ncols a = length chans /\
  forall c, In c chans -> length c = shape0 a.
Proof.
  unfold array_T. destruct chans as [| c0 cs]; [| set (chans := c0 :: cs)].
  { intros [= <-]. repeat split. intros c []. }
  destruct (forallb _ chans) eqn:F; [| discriminate].
  intros [= <-]. rewrite forallb_forall in F.
  assert (HL : forall c, In c chans -> length c = length c0).
  { intros c Hc. apply Nat.eqb_eq. now apply F. }
  unfold channels_of, shape0. cbn [ncols rows].
  split; [| split; [reflexivity |]].
  - transitivity (map (fun j => nth j chans []) (seq 0 (length chans)));
      [| apply map_nth_seq].
    apply map_ext_in. intros j Hj. apply in_seq in Hj.
    rewrite map_map.
    rewrite <- (map_nth_seq (nth j chans []) 0%Q).
    rewrite (HL (nth j chans [])) by (apply nth_In; lia).
    apply map_ext. intro s.
    rewrite (nth_indep (map (fun c : list Q => nth s c 0%Q) chans)
               0%Q (nth s [] 0%Q))
      by (rewrite length_map; lia).
    now rewrite (map_nth (fun c : list Q => nth s c 0%Q)).
  - intros c Hc. rewrite length_map, length_seq. now apply HL.
Qed.

Lemma array_T_channels_witness :
  channels_of (mkArray 2 [ [1; 4]; [2; 5]; [3; 6] ]%Q) = two_channels /\
  ncols (mkArray 2 [ [1; 4]; [2; 5]; [3; 6] ]%Q) = length two_channels /\
  forall c, In c two_channels ->
            length c = shape0 (mkArray 2 [ [1; 4]; [2; 5]; [3; 6] ]%Q).
Proof.
  apply (array_T_channels two_channels). reflexivity.
Defined.

(** ** The merge of a loaded configuration *)

Lemma dict_set_keys (key : string) (v : pyval) (d : dict) :
  dict_mem key d = true -> map fst (dict_set key v d) = map fst d.
Proof.
  unfold dict_mem. induction d as [| [k w] d IH]; cbn; [discriminate |].
  destruct (String.eqb_spec k key) as [-> | Ne]; cbn; [reflexivity |].
  intro H. now rewrite IH.
Qed.

Lemma dict_mem_set_same (key k : string) (v : pyval) (d : dict) :
  dict_mem k d = true -> dict_mem key (dict_set k v d) = dict_mem key d.
Proof.
  unfold dict_mem. intro H.
  destruct (String.eqb_spec k key) as [-> | Ne].
  - rewrite dict_get_set_same. now destruct (dict_get key d).
  - now rewrite dict_get_set_other.
Qed.

Section MergeFacts.

Variable from_dict : json -> result SensorParams.
Variable pick : nat -> nat.

(** One step of the merge for a recognised key. *)
Lemma merge_step (k : string) (v : json) (items : list (string * json))
    (params : dict) :
  dict_mem k params = true ->
  merge from_dict ((k, v) :: items) params
  = match stored from_dict k v with
    | Raise e => Raise e
    | Ok pv => merge from_dict items (dict_set k pv params)
    end.
Proof.
  intro Mk. cbn [merge]. rewrite Mk. unfold stored.
  destruct (is_sensors_key k); [| reflexivity].
  destruct (iterate v) as [entries | e]; [| reflexivity].
  now destruct (map_result from_dict entries).
Qed.

Lemma merge_skip (k : string) (v : json) (items : list (string * json))
    (params : dict) :
  dict_mem k params = false ->
  merge from_dict ((k, v) :: items) params = merge from_dict items params.
Proof. intro Mk. cbn [merge]. now rewrite Mk. Qed.

(** X20.  The merge changes values only: the parameters keep their keys,
    and the order of them, whatever the file holds. *)
Theorem merge_keeps_keys (items : list (string * json))
    (params params' : dict) :
  merge from_dict items params = Ok params' ->
  map fst params' = map fst params.
Proof.
  revert params. induction items as [| [k v] items IH]; intros params E.
  - cbn in E. now injection E as <-.
  - destruct (dict_mem k params) eqn:Mk.
    + rewrite merge_step in E by exact Mk.
      destruct (stored from_dict k v) as [pv | e]; [| discriminate].
      rewrite (IH _ E). now apply dict_set_keys.
    + rewrite merge_skip in E by exact Mk. now apply IH.
Qed.

(** X21.  An item whose key is not a parameter has no effect at all: the
    merge of a file is the merge of its recognised items. *)
Theorem merge_ignores_unknown_keys (items : list (string * json))
    (params : dict) :
  merge from_dict items params
  = merge from_dict
      (filter (fun kv => dict_mem (fst kv) params) items) params.
Proof.
  revert params. induction items as [| [k v] items IH]; intro params;
    [reflexivity |].
  cbn [filter fst]. destruct (dict_mem k params) eqn:Mk.
  - rewrite !merge_step by exact Mk.
    destruct (stored from_dict k v) as [pv | e]; [| reflexivity].
    rewrite IH. f_equal. apply filter_ext. intros [k' v']; cbn [fst].
    now apply dict_mem_set_same.
  - rewrite merge_skip by exact Mk. apply IH.
Qed.

(** After the merge a parameter holds what the last item of its key
    stores, or else what it held. *)
Lemma merge_lookup (key : string) (items : list (string * json)) :
  forall params params',
    dict_mem key params = true ->
    merge from_dict items params = Ok params' ->
    match supplied key items with
    | Some v =>
        exists pv, stored from_dict key v = Ok pv /\
                   dict_get key params' = Some pv
    | None => dict_get key params' = dict_get key params
    end.
Proof.
  induction items as [| [k v] items IH]; intros params params' Hm E.
  - cbn in *. now injection E as <-.
  - cbn [supplied]. destruct (dict_mem k params) eqn:Mk.
    + rewrite merge_step in E by exact Mk.
      destruct (stored from_dict k v) as [pv | e] eqn:S; [| discriminate].
      assert (G := IH _ _ (dict_mem_set _ k pv _ Hm) E).
      destruct (supplied key items) as [w |]; [exact G |].
      destruct (String.eqb_spec k key) as [-> | Ne].
      * exists pv. split; [exact S |].
        now rewrite G, dict_get_set_same.
      * now rewrite G, dict_get_set_other.
    + rewrite merge_skip in E by exact Mk.
      assert (G := IH _ _ Hm E).
      destruct (supplied key items) as [w |]; [exact G |].
      destruct (String.eqb_spec k key) as [-> | Ne]; [congruence | exact G].
Qed.

(** X22.  The last item of a key wins: after the merge a parameter holds
    what the last item of its key stores (the sensors built from it for a
    sensor key, the loaded value as it is otherwise), and a parameter the
    file does not name keeps its value. *)
Theorem merge_last_value_wins (key : string) (items : list (string * json))
    (params params' : dict) :
  dict_mem key params = true ->
  merge from_dict items params = Ok params' ->
  match supplied key items with
  | Some v =>
      exists pv, stored from_dict key v = Ok pv /\
                 dict_get key params' = Some pv
  | None => dict_get key params' = dict_get key params
  end.
Proof. apply merge_lookup. Qed.

(** ** What the loader reads of the merged parameters *)

Lemma item_set_other (key k : string) (v : pyval) (params : dict) :
  k <> key -> item key (dict_set k v params) = item key params.
Proof. intro Ne. unfold item. now rewrite dict_get_set_other. Qed.

(** X23.  Only the keys of [read_keys] reach the acquisition parameters:
    assigning to any other key before the version check changes neither
    the check nor the parameters built.  The post-acquisition duration, the
    target file name and the channel amplification of a configuration are
    such keys. *)
Theorem finish_reads_only_read_keys (key : string) (v : pyval)
    (params : dict) :
  ~ In key read_keys ->
  finish pick (dict_set key v params) = finish pick params.
Proof.
  intro H.
  assert (Ne : forall k, In k read_keys -> key <> k)
    by (intros k Hk ->; exact (H Hk)).
  unfold finish, build.
  rewrite dict_get_set_other by (apply Ne; cbn; tauto).
  rewrite !item_set_other by (apply Ne; cbn; tauto).
  reflexivity.
Qed.

(** X24.  A file whose [cur_version] is a number of at least 2 passes
    the version check as soon as its items merge and the merged
    parameters can be logged: [parse_args] then returns the parameters
    built from the merge when the constructor accepts them, and raises
    [SerdeError] when one of them has not the declared type. *)
Theorem supported_version_accepted (items : list (string * json))
    (params : dict) :
  supplies_version_2 (ConfigFile (Ok (JObject items))) = true ->
  merge from_dict items default_params = Ok params ->
  log_params params = Ok tt ->
  parse_args from_dict pick (ConfigFile (Ok (JObject items)))
  = if type_check pick (build params) then Ok (build params)
    else Raise SerdeError.
Proof.
  intros H M L. cbn [parse_args]. rewrite M, L. unfold finish.
  assert (G := merge_lookup "cur_version" items default_params params
                 eq_refl M).
  cbn [supplies_version_2] in H.
  destruct (supplied "cur_version" items) as [v |]; [| discriminate].
  destruct G as (pv & S & ->). cbn in S. injection S as <-.
  destruct v as [| b | z | q | | negative | s | l | its];
    try discriminate; cbn in *.
  - destruct (Z.leb_spec 2 z); [| discriminate].
    destruct (Z.ltb_spec z 2); [lia | reflexivity].
  - now rewrite H.
  - destruct negative; [discriminate | reflexivity].
Qed.

(** X25.  A file that gives a parameter the empty list is not loaded:
    once its items are merged, the log of the parameters reads the first
    element of the list and raises [IndexError]. *)
Theorem empty_list_parameter_raises (key : string)
    (items : list (string * json)) (params : dict) :
  dict_mem key default_params = true ->
  supplied key items = Some (JArray []) ->
  merge from_dict items default_params = Ok params ->
  parse_args from_dict pick (ConfigFile (Ok (JObject items)))
  = Raise IndexError.
Proof.
  intros Hk S M. cbn [parse_args]. rewrite M.
  assert (G := merge_lookup key items default_params params Hk M).
  rewrite S in G. destruct G as (pv & Ev & G).
  assert (Hpv : is_empty_list pv = true).
  { unfold stored in Ev. destruct (is_sensors_key key); cbn in Ev;
      injection Ev as <-; reflexivity. }
  assert (X : existsb (fun kv => is_empty_list (snd kv)) params = true).
  { clear - G Hpv. induction params as [| [k w] d IH]; [discriminate |].
    cbn in G |- *. destruct (String.eqb k key).
    - injection G as ->. now rewrite Hpv.
    - rewrite (IH G). apply orb_true_r. }
  unfold log_params. now rewrite X.
Qed.

End MergeFacts.

Lemma merge_keeps_keys_witness :
  exists params,
    merge card_and_channel sample_items default_params = Ok params /\
    map fst params = map fst default_params.
Proof.
  eexists. split; [reflexivity |].
  apply (merge_keeps_keys card_and_channel sample_items). reflexivity.
Defined.

Lemma merge_last_value_wins_witness :
  exists params,
    merge card_and_channel sample_items default_params = Ok params /\
    exists pv,
      stored card_and_channel "sensors_card_0" (JArray
        [ JObject [ ("sensor_card"%string, JInt 0);
                    ("sensor_channel"%string, JInt 1) ] ]) = Ok pv /\
      dict_get "sensors_card_0" params = Some pv.
Proof.
  eexists. split; [reflexivity |].
  apply (merge_last_value_wins card_and_channel "sensors_card_0"
           sample_items default_params); reflexivity.
Defined.

Lemma finish_reads_only_read_keys_witness :
  finish (fun _ => 0%nat)
    (dict_set "post_acquisition_duration" (PJson (JFloat 5)) default_params)
  = finish (fun _ => 0%nat) default_params.
Proof.
  apply finish_reads_only_read_keys. cbn. intuition discriminate.
Defined.

Lemma supported_version_accepted_witness :
  exists params,
    parse_args card_and_channel (fun _ => 0%nat)
      (ConfigFile (Ok (JObject sample_items)))
    = if type_check (fun _ => 0%nat) (build params) then Ok (build params)
      else Raise SerdeError.
Proof.
  eexists.
  apply (supported_version_accepted card_and_channel (fun _ => 0%nat)
           sample_items);
    reflexivity.
Defined.

(** A file of version 2 that gives the sample rate as the integer 4 is
    refused by the constructor: [sample_rate] is declared a [float]. *)
Example integer_rate_refused :
  parse_args card_and_channel (fun _ => 0%nat)
    (ConfigFile (Ok (JObject [ ("cur_version"%string, JInt 2);
                               ("sample_rate"%string, JInt 4) ])))
  = Raise SerdeError.
Proof. reflexivity. Qed.

Lemma empty_list_parameter_raises_witness :
  parse_args card_and_channel (fun _ => 0%nat)
    (ConfigFile (Ok (JObject no_cards_items)))
  = Raise IndexError.
Proof.
  eapply (empty_list_parameter_raises card_and_channel (fun _ => 0%nat)
            "card_identifiers" no_cards_items); reflexivity.
Defined.
